(** * The outbound dispatch subsystem of the WhatsApp bulk service

    A shallow embedding of [src/server.js]: the phone-number formatter, the
    notification templaters with their date renderer, and the message queue
    with its drain procedure [processMessageQueue], run on the Node.js event
    loop.  JavaScript values are an inductive type, exceptions an error
    monad, the module-level variables one record, and the suspension points
    of the asynchronous drain procedure explicit program counters that the
    events of the loop resume. *)

From Stdlib Require Import ZArith Ascii String List Lia Bool DecimalString.
From stdpp Require Import base list strings.

Open Scope string_scope.

(** ** JavaScript values and completions *)

(** The values a JSON request body can hold (and [undefined] for an absent
    property).  Numbers are the integral ones, where double arithmetic is
    exact; an array or a plain object is kept as the string its [ToString]
    yields. *)
Inductive JsValue :=
| JUndefined
| JNull
| JBool (b : bool)
| JNumber (n : Z)
| JString (s : string)
| JObject (repr : string).

Inductive Exn :=
| TypeError (message : string)
| RangeError (message : string)
| Error (message : string).

Definition exn_message (e : Exn) : string :=
  match e with TypeError m | RangeError m | Error m => m end.

(** A completion is normal or abrupt (a thrown exception). *)
Inductive Completion (A : Type) :=
| Normal (a : A)
| Throw (e : Exn).
Arguments Normal {A} a.
Arguments Throw {A} e.

#[global] Instance Completion_ret : MRet Completion := fun A a => Normal a.

#[global] Instance Completion_bind : MBind Completion := fun A B k c =>
  match c with
  | Normal a => k a
  | Throw e => Throw e
  end.

(** [try { c } catch (error) { h error }] *)
Definition try_catch {A} (c : Completion A) (h : Exn -> Completion A) : Completion A :=
  match c with
  | Normal a => Normal a
  | Throw e => h e
  end.

(** ToBoolean *)
Definition truthy (v : JsValue) : bool :=
  match v with
  | JUndefined | JNull => false
  | JBool b => b
  | JNumber n => negb (n =? 0)%Z
  | JString s => negb (String.eqb s "")
  | JObject _ => true
  end.

(** [a || b] *)
Definition js_or (a b : JsValue) : JsValue := if truthy a then a else b.

(** ** Strings *)

(** [\d] is an ASCII digit; every byte of a character outside ASCII is at
    least 128, so [\D] matches it whatever the encoding. *)
Definition is_digit (c : ascii) : bool :=
  (48 <=? nat_of_ascii c)%nat && (nat_of_ascii c <=? 57)%nat.

(** [s.replace(/\D/g, '')] *)
Fixpoint replace_non_digits (s : string) : string :=
  match s with
  | EmptyString => EmptyString
  | String c r =>
      if is_digit c then String c (replace_non_digits r) else replace_non_digits r
  end.

(** [s.slice(start)]: a negative [start] counts from the end. *)
Definition String_slice (start : Z) (s : string) : string :=
  let len := Z.of_nat (String.length s) in
  let from := if (start <? 0)%Z then Z.max (len + start) 0 else Z.min start len in
  String.substring (Z.to_nat from) (Z.to_nat (len - from)) s.

(** ** Phone numbers (server.js, lines 76-82) *)

Definition formatPhoneNumber (phone : string) : string :=
  let digits := replace_non_digits phone in
  if String.prefix "91" digits && (String.length digits =? 12)%nat then digits
  else if (String.length digits =? 10)%nat then "91" ++ digits
  else if (10 <=? String.length digits)%nat then "91" ++ String_slice (-10) digits
  else digits.

(** The call [formatPhoneNumber(phone)] on an arbitrary value: only a string
    has a [replace] method. *)
Definition call_formatPhoneNumber (phone : JsValue) : Completion string :=
  match phone with
  | JString s => Normal (formatPhoneNumber s)
  | JUndefined | JNull =>
      Throw (TypeError "Cannot read properties of undefined (reading 'replace')")
  | _ => Throw (TypeError "phone.replace is not a function")
  end.

(** The rule of the specification, in its words: the digits are what
    remains of the input with every non-digit removed; "starts with" is
    stated by a decomposition, "the last 10 digits" by dropping all but ten
    characters. *)
Definition digits_of (raw : string) : list ascii :=
  filter (fun c => is_digit c = true) (list_ascii_of_string raw).

Definition starts_with_91 (ds : list ascii) : Prop :=
  exists rest, ds = "9"%char :: "1"%char :: rest.

Definition normalize_rule (raw result : string) : Prop :=
  let ds := digits_of raw in
  let n := length ds in
  let step2 := starts_with_91 ds /\ n = 12 in
  (step2 -> result = string_of_list_ascii ds) /\
  (~ step2 -> n = 10 -> result = "91" ++ string_of_list_ascii ds) /\
  (~ step2 -> n <> 10 -> 10 <= n ->
     result = "91" ++ string_of_list_ascii (drop (n - 10) ds)) /\
  (n < 10 -> result = string_of_list_ascii ds).

Definition all_digits (s : string) : Prop :=
  Forall (fun c => is_digit c = true) (list_ascii_of_string s).

(** ** The JavaScript runtime

    The built-ins the program calls, whose results depend on the engine, its
    locale data and the time zone of the host. *)
Class JsRuntime := {
  (** [s.trim()] *)
  String_trim : string -> string;
  (** [s.toUpperCase()] *)
  String_toUpperCase : string -> string;
  (** [ToNumber(s) > k], for a string [s] *)
  StringToNumber_gt : string -> Z -> bool;
  (** [v.toLocaleString()] *)
  Value_toLocaleString : JsValue -> string;
  (** the offset of local time from UTC, in ms, at the local time value [t] *)
  LocalTZA : Z -> Z;
  (** [Date.parse] on the strings whose meaning ECMAScript leaves to the
      engine; [None] is NaN *)
  Date_parse_other : string -> option Z;
  (** [date.toLocaleDateString('en-IN', {weekday: 'long', year: 'numeric',
      month: 'long', day: 'numeric'})] at a time value *)
  Date_toLocaleDateString_enIN : Z -> Completion string
}.

Definition nl : string := String (ascii_of_nat 10) EmptyString.

(** ToString, as a template literal applies it. *)
Definition ToString (v : JsValue) : string :=
  match v with
  | JUndefined => "undefined"
  | JNull => "null"
  | JBool b => if b then "true" else "false"
  | JNumber n => NilZero.string_of_int (Z.to_int n)
  | JString s => s
  | JObject repr => repr
  end.

(** [v === s] for a string literal [s] *)
Definition strict_eq_string (v : JsValue) (s : string) : bool :=
  match v with
  | JString t => String.eqb t s
  | _ => false
  end.

(** [typeof v === 'string'] *)
Definition is_string (v : JsValue) : bool :=
  match v with JString _ => true | _ => false end.

(** The request objects, with the properties the templaters read; an absent
    property reads as [JUndefined]. *)
Module event.
Record t := {
  id : JsValue;
  role : JsValue;
  title : JsValue;
  eventType : JsValue;
  event_type : JsValue;
  eventDate : JsValue;
  event_date : JsValue;
  venue : JsValue;
  clientName : JsValue;
  client_name : JsValue;
  totalDays : JsValue;
  total_days : JsValue;
  description : JsValue
}.
End event.

Module task.
Record t := {
  id : JsValue;
  title : JsValue;
  taskType : JsValue;
  task_type : JsValue;
  priority : JsValue;
  dueDate : JsValue;
  due_date : JsValue;
  eventTitle : JsValue;
  event_title : JsValue;
  amount : JsValue;
  description : JsValue
}.
End task.

Module staff.
Record t := {
  id : JsValue;
  full_name : JsValue;
  role : JsValue;
  mobile_number : JsValue
}.
End staff.

Section Runtime.
Context `{JsRuntime}.

(** [v > k] for an integer literal [k]: ToNumber of [undefined] is NaN, of
    [null] 0, of a boolean 0 or 1; an object goes through its string. *)
Definition js_gt (v : JsValue) (k : Z) : bool :=
  match v with
  | JUndefined => false
  | JNull => (0 >? k)%Z
  | JBool b => ((if b then 1 else 0) >? k)%Z
  | JNumber n => (n >? k)%Z
  | JString s => StringToNumber_gt s k
  | JObject repr => StringToNumber_gt repr k
  end.

(** [v.toUpperCase()] and [v.trim()] on a value that is not nullish. *)
Definition call_toUpperCase (v : JsValue) : Completion string :=
  match v with
  | JString s => Normal (String_toUpperCase s)
  | _ => Throw (TypeError "toUpperCase is not a function")
  end.

Definition call_trim (v : JsValue) : Completion string :=
  match v with
  | JString s => Normal (String_trim s)
  | _ => Throw (TypeError "trim is not a function")
  end.

(** [v && v.trim() !== ''] *)
Definition truthy_and_not_blank (v : JsValue) : Completion bool :=
  if truthy v then t ← call_trim v; mret (negb (String.eqb t "")) else mret false.

(** *** Dates *)

Definition digit_value (c : ascii) : Z := Z.of_nat (nat_of_ascii c) - 48.

Definition digits_value (cs : list ascii) : Z :=
  fold_left (fun acc c => 10 * acc + digit_value c)%Z cs 0%Z.

(** [s.match(/^\d{4}-\d{2}-\d{2}$/)] finds a match. *)
Definition matches_bare_date (s : string) : bool :=
  match list_ascii_of_string s with
  | [y1; y2; y3; y4; h1; m1; m2; h2; d1; d2] =>
      forallb is_digit [y1; y2; y3; y4; m1; m2; d1; d2]
      && Ascii.eqb h1 "-" && Ascii.eqb h2 "-"
  | _ => false
  end.

(** Year, month and day of a string that matches. *)
Definition bare_date_fields (s : string) : Z * Z * Z :=
  let cs := list_ascii_of_string s in
  (digits_value (take 4 cs), digits_value (take 2 (drop 5 cs)),
   digits_value (take 2 (drop 8 cs))).

Definition is_leap_year (y : Z) : bool :=
  ((y mod 4 =? 0) && negb (y mod 100 =? 0) || (y mod 400 =? 0))%Z.

Definition days_in_month (y m : Z) : Z :=
  (if m =? 2 then (if is_leap_year y then 29 else 28)
   else if (m =? 4) || (m =? 6) || (m =? 9) || (m =? 11) then 30
   else 31)%Z.

Definition valid_calendar_date (y m d : Z) : bool :=
  ((1 <=? m) && (m <=? 12) && (1 <=? d) && (d <=? days_in_month y m))%Z.

(** Days from 1970-01-01 to the day [d] of month [m] of year [y] in the
    proleptic Gregorian calendar (ECMAScript's MakeDay). *)
Definition days_from_civil (y m d : Z) : Z :=
  (let y' := if m <=? 2 then y - 1 else y in
   let era := y' / 400 in
   let yoe := y' - era * 400 in
   let mp := if m >? 2 then m - 3 else m + 9 in
   let doy := (153 * mp + 2) / 5 + d - 1 in
   let doe := yoe * 365 + yoe / 4 - yoe / 100 + doy in
   era * 146097 + doe - 719468)%Z.

Definition msPerDay : Z := 86400000.

(** The time value of 00:00:00 local time on a calendar day, and of
    00:00:00 UTC on it. *)
Definition utc_midnight (y m d : Z) : Z := (msPerDay * days_from_civil y m d)%Z.

Definition local_midnight (y m d : Z) : Z :=
  (utc_midnight y m d - LocalTZA (utc_midnight y m d))%Z.

(** [Date.parse].  ECMAScript fixes the date-time form without an offset,
    [YYYY-MM-DDT00:00:00] here, as local time; on an impossible day of the
    month (engines differ) and on every other string the engine decides. *)
Definition Date_parse (s : string) : option Z :=
  let d := String.substring 0 10 s in
  if (String.length s =? 19)%nat && matches_bare_date d
     && String.eqb (String.substring 10 9 s) "T00:00:00"
  then
    let '(y, m, dd) := bare_date_fields d in
    if valid_calendar_date y m dd then Some (local_midnight y m dd)
    else Date_parse_other s
  else Date_parse_other s.

Definition TimeClip (t : Z) : option Z :=
  if (Z.abs t <=? 8640000000000000)%Z then Some t else None.

(** The time value of [new Date(v)]; [None] is NaN, an invalid date. *)
Definition Date_new (v : JsValue) : option Z :=
  match v with
  | JUndefined => None
  | JNull => Some 0%Z
  | JBool b => Some (if b then 1 else 0)%Z
  | JNumber n => TimeClip n
  | JString s => Date_parse s
  | JObject repr => Date_parse repr
  end.

(** [formatDate], defined at lines 431-461 inside [formatEventMessage] and
    again, word for word, at lines 492-522 inside [formatTaskMessage].
    [parsed_date] is the time value of the [date] of lines 437-444,
    [formatDate_try] the body of the [try] block. *)
Definition parsed_date (dateString : JsValue) : option Z :=
  match dateString with
  | JString s =>
      if matches_bare_date s then Date_new (JString (s ++ "T00:00:00"))
      else Date_new dateString
  | _ => Date_new dateString
  end.

Definition formatDate_try (dateString : JsValue) : Completion string :=
  match parsed_date dateString with
  | None => mret "Invalid date"
  | Some t => Date_toLocaleDateString_enIN t
  end.

(** The test of line 432. *)
Definition date_not_specified (dateString : JsValue) : bool :=
  negb (truthy dateString) || strict_eq_string dateString "undefined"
  || strict_eq_string dateString "null".

Definition formatDate (dateString : JsValue) : Completion string :=
  if date_not_specified dateString
  then mret "Date not specified"
  else try_catch (formatDate_try dateString)
                 (fun error => mret "Date formatting error").

(** *** Message templates (server.js, lines 430-550) *)

(** The value the duration line shows and the test that guards it
    (line 478). *)
Definition event_duration_value (ev : event.t) : JsValue :=
  js_or (event.totalDays ev) (event.total_days ev).

Definition event_duration_shown (ev : event.t) : bool :=
  truthy (event_duration_value ev)
  && (js_gt (event.totalDays ev) 1 || js_gt (event.total_days ev) 1).

(** The text lines 478-480 add to the message. *)
Definition event_duration_line (ev : event.t) : string :=
  if event_duration_shown ev
  then "*Event Duration:* " ++ ToString (event_duration_value ev) ++ " days" ++ nl
  else "".

Definition formatEventMessage (ev : event.t) (st : staff.t) : Completion string :=
  let message := "*EVENT ASSIGNMENT*" ++ nl ++ nl in
  let message := message ++ "Hello *" ++ ToString (staff.full_name st) ++ "*," ++ nl ++ nl in
  role ← call_toUpperCase
           (js_or (js_or (event.role ev) (staff.role st)) (JString "STAFF"));
  let message := message ++ "You have been assigned as *" ++ role
                   ++ "* for the following event:" ++ nl ++ nl in
  let message := message ++ "*Event Title:* "
                   ++ ToString (js_or (event.title ev) (JString "Not specified")) ++ nl in
  let message := message ++ "*Event Type:* "
                   ++ ToString (js_or (js_or (event.eventType ev) (event.event_type ev))
                                      (JString "Not specified")) ++ nl in
  date ← formatDate (js_or (event.eventDate ev) (event.event_date ev));
  let message := message ++ "*Event Date:* " ++ date ++ nl in
  has_venue ← truthy_and_not_blank (event.venue ev);
  let message :=
    if (has_venue : bool) then message ++ "*Venue:* " ++ ToString (event.venue ev) ++ nl
    else message in
  let message :=
    if truthy (js_or (event.clientName ev) (event.client_name ev))
    then message ++ "*Client Name:* "
           ++ ToString (js_or (event.clientName ev) (event.client_name ev)) ++ nl
    else message in
  let message := message ++ event_duration_line ev in
  has_description ← truthy_and_not_blank (event.description ev);
  let message :=
    if (has_description : bool)
    then message ++ nl ++ "*Additional Details:*" ++ nl ++ "_"
           ++ ToString (event.description ev) ++ "_" ++ nl
    else message in
  mret (message ++ nl ++ "Thank you for your professionalism and commitment.").

Definition formatTaskMessage (tk : task.t) (st : staff.t) : Completion string :=
  let message := "*TASK ASSIGNMENT*" ++ nl ++ nl in
  let message := message ++ "Hello *" ++ ToString (staff.full_name st) ++ "*," ++ nl ++ nl in
  let message := message ++ "You have been assigned a new task:" ++ nl ++ nl in
  let message := message ++ "*Task Title:* "
                   ++ ToString (js_or (task.title tk) (JString "Not specified")) ++ nl in
  let message := message ++ "*Task Type:* "
                   ++ ToString (js_or (js_or (task.taskType tk) (task.task_type tk))
                                      (JString "General")) ++ nl in
  let message := message ++ "*Priority:* "
                   ++ ToString (js_or (task.priority tk) (JString "Medium")) ++ nl in
  message ←
    (if truthy (js_or (task.dueDate tk) (task.due_date tk))
     then date ← formatDate (js_or (task.dueDate tk) (task.due_date tk));
          mret (message ++ "*Due Date:* " ++ date ++ nl)
     else mret message);
  let message :=
    if truthy (js_or (task.eventTitle tk) (task.event_title tk))
    then message ++ "*Related Event:* "
           ++ ToString (js_or (task.eventTitle tk) (task.event_title tk)) ++ nl
    else message in
  let message :=
    if truthy (task.amount tk) && js_gt (task.amount tk) 0
    then message ++ "*Compensation:* ₹" ++ Value_toLocaleString (task.amount tk) ++ nl
    else message in
  has_description ← truthy_and_not_blank (task.description tk);
  let message :=
    if (has_description : bool)
    then message ++ nl ++ "*Task Description:*" ++ nl ++ "_"
           ++ ToString (task.description tk) ++ "_" ++ nl
    else message in
  mret (message ++ nl ++ "Thank you for your professionalism.").

End Runtime.

(** ** A runtime to evaluate with

    Indian Standard Time; ASCII letters and white space; decimal integer
    numerals; an engine that takes every string it is free to reject as an
    invalid date; dates written as in "Tuesday, 5 March 2024". *)
Module Sample.

Definition is_space (c : ascii) : bool :=
  let n := nat_of_ascii c in
  (n =? 32)%nat || ((9 <=? n)%nat && (n <=? 13)%nat).

Fixpoint trim_left (s : string) : string :=
  match s with
  | String c r => if is_space c then trim_left r else s
  | EmptyString => EmptyString
  end.

Fixpoint trim_right (s : string) : string :=
  match s with
  | EmptyString => EmptyString
  | String c r =>
      match trim_right r with
      | EmptyString => if is_space c then EmptyString else String c EmptyString
      | r' => String c r'
      end
  end.

Definition upper (c : ascii) : ascii :=
  let n := nat_of_ascii c in
  if (97 <=? n)%nat && (n <=? 122)%nat then ascii_of_nat (n - 32) else c.

Fixpoint map_string (f : ascii -> ascii) (s : string) : string :=
  match s with
  | EmptyString => EmptyString
  | String c r => String (f c) (map_string f r)
  end.

Definition numeral_gt (s : string) (k : Z) : bool :=
  let cs := list_ascii_of_string s in
  match cs with
  | [] => (0 >? k)%Z
  | _ => forallb is_digit cs
         && (fold_left (fun acc c => 10 * acc + (Z.of_nat (nat_of_ascii c) - 48))%Z cs 0%Z
             >? k)%Z
  end.

Definition number_text (n : Z) : string := NilZero.string_of_int (Z.to_int n).

(** Year, month and day of a day counted from 1970-01-01. *)
Definition civil_from_days (z : Z) : Z * Z * Z :=
  (let z := z + 719468 in
   let era := z / 146097 in
   let doe := z - era * 146097 in
   let yoe := (doe - doe / 1460 + doe / 36524 - doe / 146096) / 365 in
   let doy := doe - (365 * yoe + yoe / 4 - yoe / 100) in
   let mp := (5 * doy + 2) / 153 in
   let d := doy - (153 * mp + 2) / 5 + 1 in
   let m := if mp <? 10 then mp + 3 else mp - 9 in
   let y := yoe + era * 400 in
   (if m <=? 2 then y + 1 else y, m, d))%Z.

Definition weekday_name (z : Z) : string :=
  nth (Z.to_nat ((z + 4) mod 7))
      ["Sunday"; "Monday"; "Tuesday"; "Wednesday"; "Thursday"; "Friday"; "Saturday"] "".

Definition month_name (m : Z) : string :=
  nth (Z.to_nat (m - 1))
      ["January"; "February"; "March"; "April"; "May"; "June"; "July"; "August";
       "September"; "October"; "November"; "December"] "".

Definition offset : Z := 19800000.

Definition long_date (t : Z) : string :=
  let z := ((t + offset) / 86400000)%Z in
  let '(y, m, d) := civil_from_days z in
  weekday_name z ++ ", " ++ number_text d ++ " " ++ month_name m ++ " " ++ number_text y.

#[local] Instance runtime : JsRuntime := {|
  String_trim := fun s => trim_right (trim_left s);
  String_toUpperCase := map_string upper;
  StringToNumber_gt := numeral_gt;
  Value_toLocaleString := ToString;
  LocalTZA := fun _ => offset;
  Date_parse_other := fun _ => None;
  Date_toLocaleDateString_enIN := fun t => Normal (long_date t)
|}.

End Sample.

(** ** The message queue and its drain procedure (server.js, lines 27-73) *)

Inductive ConnectionStatus :=
| initializing | qr_ready | authenticated | ready | auth_failed | disconnected | resetting.

(** The status a [statusCallback] is called with. *)
Inductive Status := sent | failed.

(** An entry of [messageQueue].  The drain procedure reads [number],
    [message] and [statusCallback]; no route of this server sets a
    [statusCallback].  [id] stands for the version-4 UUID, taken fresh from
    a counter; the properties [timestamp], [type], [event_id] and [task_id]
    are written once and never read.  A callback is modelled by how its call
    completes, given the status and, for [failed], the error message. *)
Record QueuedMessage := {
  id : nat;
  number : JsValue;
  message : JsValue;
  statusCallback : option (Status -> option string -> Completion unit)
}.

(** How the promise of [client.sendMessage] settles: it resolves, or it
    rejects with an error object (a call that throws at once is a
    rejection). *)
Inductive SendResult :=
| Resolved
| Rejected (error : Exn).

(** Where an activation of [processMessageQueue] is suspended: at line 50,
    waiting for the send of the entry it holds in [messageData], or at
    line 59, waiting for the pacing timer that fires at [wake]. *)
Inductive DrainPc :=
| AwaitSend (messageData : QueuedMessage) (formattedNumber : string)
| AwaitDelay (messageData : QueuedMessage) (wake : Z).

(** What the program does, as the outside sees it. *)
Inductive Action :=
| Push (m : QueuedMessage)                          (** [messageQueue.push(m)] *)
| Shift (m : QueuedMessage)                         (** [messageQueue.shift()] gave [m] *)
| SendMessage (chatId : string) (content : JsValue) (** [client.sendMessage] is called *)
| Outcome (m : QueuedMessage) (s : Status)          (** the outcome line of 51 or 62, then the callback *)
| SetTimeout (ms : Z)                               (** the pacing timer of line 59 is set *)
| Uncaught (e : Exn).                               (** an exception leaves [processMessageQueue] *)

(** The module-level variables (lines 28-33), the suspended activations of
    [processMessageQueue], the clock in ms, the UUID counter and the
    time-stamped actions so far. *)
Record State := {
  isClientReady : bool;
  connectionStatus : ConnectionStatus;
  messageQueue : list QueuedMessage;
  isProcessingQueue : bool;
  drains : list DrainPc;
  now : Z;
  next_uuid : nat;
  trace : list (Z * Action)
}.

Definition initial_state : State :=
  {| isClientReady := false; connectionStatus := initializing; messageQueue := [];
     isProcessingQueue := false; drains := []; now := 0; next_uuid := 0; trace := [] |}.

Definition set_isClientReady (b : bool) (st : State) : State :=
  {| isClientReady := b; connectionStatus := connectionStatus st;
     messageQueue := messageQueue st; isProcessingQueue := isProcessingQueue st;
     drains := drains st; now := now st; next_uuid := next_uuid st; trace := trace st |}.

Definition set_connectionStatus (c : ConnectionStatus) (st : State) : State :=
  {| isClientReady := isClientReady st; connectionStatus := c;
     messageQueue := messageQueue st; isProcessingQueue := isProcessingQueue st;
     drains := drains st; now := now st; next_uuid := next_uuid st; trace := trace st |}.

Definition set_messageQueue (q : list QueuedMessage) (st : State) : State :=
  {| isClientReady := isClientReady st; connectionStatus := connectionStatus st;
     messageQueue := q; isProcessingQueue := isProcessingQueue st;
     drains := drains st; now := now st; next_uuid := next_uuid st; trace := trace st |}.

Definition set_isProcessingQueue (b : bool) (st : State) : State :=
  {| isClientReady := isClientReady st; connectionStatus := connectionStatus st;
     messageQueue := messageQueue st; isProcessingQueue := b;
     drains := drains st; now := now st; next_uuid := next_uuid st; trace := trace st |}.

Definition set_drains (ds : list DrainPc) (st : State) : State :=
  {| isClientReady := isClientReady st; connectionStatus := connectionStatus st;
     messageQueue := messageQueue st; isProcessingQueue := isProcessingQueue st;
     drains := ds; now := now st; next_uuid := next_uuid st; trace := trace st |}.

Definition set_now (t : Z) (st : State) : State :=
  {| isClientReady := isClientReady st; connectionStatus := connectionStatus st;
     messageQueue := messageQueue st; isProcessingQueue := isProcessingQueue st;
     drains := drains st; now := t; next_uuid := next_uuid st; trace := trace st |}.

Definition set_next_uuid (n : nat) (st : State) : State :=
  {| isClientReady := isClientReady st; connectionStatus := connectionStatus st;
     messageQueue := messageQueue st; isProcessingQueue := isProcessingQueue st;
     drains := drains st; now := now st; next_uuid := n; trace := trace st |}.

(** The actions are stamped with the time at which they happen. *)
Definition emit (acts : list Action) (st : State) : State :=
  {| isClientReady := isClientReady st; connectionStatus := connectionStatus st;
     messageQueue := messageQueue st; isProcessingQueue := isProcessingQueue st;
     drains := drains st; now := now st; next_uuid := next_uuid st;
     trace := trace st ++ map (fun a => (now st, a)) acts |}.

(** [if (messageData.statusCallback) messageData.statusCallback(status, detail)] *)
Definition notify (m : QueuedMessage) (s : Status) (detail : option string)
  : Completion unit :=
  match statusCallback m with
  | Some callback => callback s detail
  | None => mret tt
  end.

(** The [catch] block, lines 61-68. *)
Definition catch_block (messageData : QueuedMessage) (error : Exn) : Completion unit :=
  notify messageData failed (Some (exn_message error)).

(** The pacing delay of line 59, in ms. *)
Definition pacing_delay : Z := 2000.

(** How a run of the loop of lines 44-69 ends: suspended at an [await],
    through its end, or by an exception that no handler catches. *)
Inductive LoopExit :=
| Suspended (pc : DrainPc)
| Completed
| Escaped (e : Exn).

(** The loop from its test to the next [await].  An entry whose number is
    not a string makes [formatPhoneNumber] throw inside the [try]: the
    [catch] block runs and the loop goes on with the next entry at once.
    The result is the queue that is left, the actions and the exit. *)
Fixpoint while_loop (isClientReady : bool) (messageQueue : list QueuedMessage)
  : list QueuedMessage * list Action * LoopExit :=
  match messageQueue with
  | [] => ([], [], Completed)
  | messageData :: rest =>
      if isClientReady then
        match call_formatPhoneNumber (number messageData) with
        | Normal formattedNumber =>
            (rest,
             [Shift messageData;
              SendMessage (formattedNumber ++ "@c.us") (message messageData)],
             Suspended (AwaitSend messageData formattedNumber))
        | Throw error =>
            match catch_block messageData error with
            | Normal _ =>
                let '(queue, acts, exit) := while_loop isClientReady rest in
                (queue, Shift messageData :: Outcome messageData failed :: acts, exit)
            | Throw e =>
                (rest, [Shift messageData; Outcome messageData failed; Uncaught e],
                 Escaped e)
            end
        end
      else (messageQueue, [], Completed)
  end.

(** An activation runs from the loop test on: line 71 clears the flag when
    the loop is left through its end. *)
Definition run_loop (st : State) : State * LoopExit :=
  let '(queue, acts, exit) := while_loop (isClientReady st) (messageQueue st) in
  let st := emit acts (set_messageQueue queue st) in
  match exit with
  | Completed => (set_isProcessingQueue false st, exit)
  | _ => (st, exit)
  end.

(** A call of [processMessageQueue()]: the guard of line 37, then the flag
    and the loop up to the first [await], where the call returns to its
    caller and the activation stays suspended. *)
Definition processMessageQueue (st : State) : State :=
  if isProcessingQueue st || (length (messageQueue st) =? 0)%nat
     || negb (isClientReady st)
  then st
  else
    let '(st, exit) := run_loop (set_isProcessingQueue true st) in
    match exit with
    | Suspended pc => set_drains (drains st ++ [pc]) st
    | _ => st
    end.

(** The activation [i] goes round the loop again. *)
Definition continue_loop (i : nat) (st : State) : State :=
  let '(st, exit) := run_loop st in
  match exit with
  | Suspended pc => set_drains (<[i := pc]> (drains st)) st
  | _ => set_drains (delete i (drains st)) st
  end.

(** The activation [i] is in the [catch] block with [error]. *)
Definition enter_catch (i : nat) (messageData : QueuedMessage) (error : Exn)
    (st : State) : State :=
  let st := emit [Outcome messageData failed] st in
  match catch_block messageData error with
  | Normal _ => continue_loop i st
  | Throw e => set_drains (delete i (drains st)) (emit [Uncaught e] st)
  end.

(** The send that activation [i] waits for settles (lines 50-68). *)
Definition resume_send (i : nat) (result : SendResult) (st : State) : option State :=
  match drains st !! i with
  | Some (AwaitSend messageData formattedNumber) =>
      match result with
      | Resolved =>
          let st := emit [Outcome messageData sent] st in
          match notify messageData sent None with
          | Normal _ =>
              Some (set_drains
                      (<[i := AwaitDelay messageData (now st + pacing_delay)]> (drains st))
                      (emit [SetTimeout pacing_delay] st))
          | Throw error => Some (enter_catch i messageData error st)
          end
      | Rejected error => Some (enter_catch i messageData error st)
      end
  | _ => None
  end.

(** The pacing timer of activation [i] fires, not before its time. *)
Definition resume_delay (i : nat) (st : State) : option State :=
  match drains st !! i with
  | Some (AwaitDelay messageData wake) =>
      if (wake <=? now st)%Z then Some (continue_loop i st) else None
  | _ => None
  end.

(** ** The routes and the other callbacks of the event loop *)

(** An element of the [messages] array of a request. *)
Record BulkItem := { item_number : JsValue; item_message : JsValue }.

(** [messageQueue.push({id: uuidv4(), number, message, ...})] *)
Definition push_message (item : BulkItem) (st : State) : State :=
  let m := {| id := next_uuid st; number := item_number item;
              message := item_message item; statusCallback := None |} in
  emit [Push m]
    (set_next_uuid (S (next_uuid st)) (set_messageQueue (messageQueue st ++ [m]) st)).

(** POST /api/send-bulk-messages (lines 232-287): an empty array is
    refused with 400, a session that is not ready with 503; an element
    without number or message is skipped. *)
Definition post_send_bulk_messages (messages : list BulkItem) (st : State) : State :=
  if (length messages =? 0)%nat then st
  else if negb (isClientReady st) then st
  else
    processMessageQueue
      (fold_left
         (fun st msg =>
            if negb (truthy (item_number msg)) || negb (truthy (item_message msg))
            then st else push_message msg st)
         messages st).

(** POST /api/send-event-messages and /api/send-task-messages (lines
    290-406), from the point where the message of every staff member has
    been rendered: [messages] pairs each [mobile_number] with its text. *)
Definition post_send_notifications (messages : list BulkItem) (st : State) : State :=
  if (length messages =? 0)%nat then st
  else if negb (isClientReady st) then st
  else processMessageQueue (fold_left (fun st msg => push_message msg st) messages st).

(** POST /api/clear-queue (lines 409-417): the variable is bound to a new,
    empty array. *)
Definition post_clear_queue (st : State) : State := set_messageQueue [] st.

(** POST /api/reset (lines 203-229) *)
Definition post_reset (st : State) : State :=
  set_connectionStatus resetting (set_isClientReady false st).

(** The scheduled callback (lines 553-558) *)
Definition cron_tick (st : State) : State :=
  if negb (length (messageQueue st) =? 0)%nat && isClientReady st
     && negb (isProcessingQueue st)
  then processMessageQueue st
  else st.

(** What the event loop runs, one callback at a time. *)
Inductive Event :=
| HttpSendBulk (messages : list BulkItem)
| HttpSendNotifications (messages : list BulkItem)
| HttpClearQueue
| HttpReset
| CronTick
| ClientQr
| ClientReady
| ClientAuthenticated
| ClientAuthFailure
| ClientDisconnected
| SendSettled (i : nat) (result : SendResult)
| TimerFired (i : nat)
| Elapse (dt : Z).

(** One turn of the event loop; [None] when the event cannot happen in the
    state (no such activation waits for it, or time would run backwards). *)
Definition step (ev : Event) (st : State) : option State :=
  match ev with
  | HttpSendBulk messages => Some (post_send_bulk_messages messages st)
  | HttpSendNotifications messages => Some (post_send_notifications messages st)
  | HttpClearQueue => Some (post_clear_queue st)
  | HttpReset => Some (post_reset st)
  | CronTick => Some (cron_tick st)
  | ClientQr => Some (set_connectionStatus qr_ready st)
  | ClientReady => Some (set_connectionStatus ready (set_isClientReady true st))
  | ClientAuthenticated => Some (set_connectionStatus authenticated st)
  | ClientAuthFailure => Some (set_connectionStatus auth_failed st)
  | ClientDisconnected =>
      Some (set_connectionStatus disconnected (set_isClientReady false st))
  | SendSettled i result => resume_send i result st
  | TimerFired i => resume_delay i st
  | Elapse dt => if (0 <=? dt)%Z then Some (set_now (now st + dt) st) else None
  end.

Fixpoint exec (evs : list Event) (st : State) : option State :=
  match evs with
  | [] => Some st
  | ev :: evs =>
      match step ev st with
      | Some st => exec evs st
      | None => None
      end
  end.

(** The projections of a trace. *)
Definition pushed (tr : list (Z * Action)) : list QueuedMessage :=
  omap (fun p => match snd p with Push m => Some m | _ => None end) tr.

Definition shifted (tr : list (Z * Action)) : list QueuedMessage :=
  omap (fun p => match snd p with Shift m => Some m | _ => None end) tr.

Definition sends (tr : list (Z * Action)) : list (string * JsValue) :=
  omap (fun p => match snd p with SendMessage c b => Some (c, b) | _ => None end) tr.

(** The call of [client.sendMessage] that an entry leads to, if any. *)
Definition send_of (m : QueuedMessage) : option (string * JsValue) :=
  match number m with
  | JString s => Some (formatPhoneNumber s ++ "@c.us", message m)
  | _ => None
  end.

(** The schedule on which the environment only answers the drain: the
    pending send settles as [outcome] says, the pacing timer fires when its
    time has come, and no other event happens.  [fuel] bounds the number of
    resumptions. *)
Fixpoint run_to_idle (fuel : nat) (outcome : QueuedMessage -> SendResult) (st : State)
  : option State :=
  match fuel with
  | O => Some st
  | S fuel =>
      match drains st with
      | [] => Some st
      | AwaitSend messageData _ :: _ =>
          st ← step (SendSettled 0 (outcome messageData)) st;
          run_to_idle fuel outcome st
      | AwaitDelay _ wake :: _ =>
          st ← exec [Elapse (Z.max 0 (wake - now st)); TimerFired 0] st;
          run_to_idle fuel outcome st
      end
  end.

(** The invariants of the event loop: at most one activation is suspended,
    and only under the flag; every entry pushed so far has been shifted or
    is still queued; no entry carries a callback; the UUIDs are fresh. *)
Definition single_drain (st : State) : Prop :=
  length (drains st) <= 1 /\ (drains st <> [] -> isProcessingQueue st = true).

Definition held (pc : DrainPc) : QueuedMessage :=
  match pc with AwaitSend m _ | AwaitDelay m _ => m end.

Definition no_callback (m : QueuedMessage) : Prop := statusCallback m = None.

Definition no_callbacks (st : State) : Prop :=
  Forall no_callback (messageQueue st) /\ Forall (fun pc => no_callback (held pc)) (drains st).

Definition fifo (st : State) : Prop :=
  pushed (trace st) = (shifted (trace st) ++ messageQueue st)%list
  /\ sends (trace st) = omap send_of (shifted (trace st)).

Definition fresh_ids (st : State) : Prop :=
  NoDup (map id (pushed (trace st)))
  /\ Forall (fun m => id m < next_uuid st) (pushed (trace st)).

(** The actions that are neither a push, a shift nor a send. *)
Definition silent (a : Action) : bool :=
  match a with
  | Outcome _ _ | SetTimeout _ | Uncaught _ => true
  | _ => false
  end.

Definition is_clear (ev : Event) : bool :=
  match ev with HttpClearQueue => true | _ => false end.

(** ** Sample requests and states *)

(** The three messages of the scenario of the specification. *)
Definition scenario_messages : list BulkItem :=
  [ {| item_number := JString "9876543210"; item_message := JString "one" |};
    {| item_number := JString "919876543211"; item_message := JString "two" |};
    {| item_number := JString "12345"; item_message := JString "three" |} ].

(** The state that a list of events leads to from the start of the server
    (the state before the first event that cannot happen). *)
Definition state_after (evs : list Event) : State :=
  default initial_state (exec evs initial_state).

(** The session is ready and the three messages have been accepted: the
    first is in flight, two are queued. *)
Definition scenario_events : list Event :=
  [ClientReady; HttpSendBulk scenario_messages].

(** The status reported for a send. *)
Definition status_of (r : SendResult) : Status :=
  match r with Resolved => sent | Rejected _ => failed end.

(** The resumptions an activation needs before it is back at the loop
    test. *)
Definition pc_fuel (pc : DrainPc) : nat :=
  match pc with AwaitSend _ _ => 2 | AwaitDelay _ _ => 1 end.

(** The event, or the two, that resume the only activation. *)
Definition resume_events (outcome : QueuedMessage -> SendResult) (st : State)
    (pc : DrainPc) : list Event :=
  match pc with
  | AwaitSend messageData _ => [SendSettled 0 (outcome messageData)]
  | AwaitDelay _ wake => [Elapse (Z.max 0 (wake - now st)); TimerFired 0]
  end.

(** The entry that an activation holds has been handed to
    [client.sendMessage]. *)
Definition sent_in_flight (st : State) : Prop :=
  Forall (fun pc => exists c, send_of (held pc) = Some c /\ In c (sends (trace st)))
         (drains st).

Definition trace_grows (st st' : State) : Prop :=
  exists tr, trace st' = (trace st ++ tr)%list.


(** The first entry of the scenario, in flight once the request is in. *)
Definition scenario_first : QueuedMessage :=
  {| id := 0; number := JString "9876543210"; message := JString "one";
     statusCallback := None |}.



Definition send_error : Exn := Error "Evaluation failed".




(** The three ways in which the only activation can stand after the loop
    test, as the lemmas on the loop list them. *)
Ltac loop_exit_cases H :=
  let H1 := fresh in let H2 := fresh in let H3 := fresh in let H4 := fresh in
  destruct H as [(H1 & H2 & [(H3 & H4 & _)|H3])|H1];
  [ left; split; [exact H1|]; split; [exact H2|]; left; split; [exact H3|exact H4]
  | left; split; [exact H1|]; split; [exact H2|]; right; exact H3
  | right; exact H1 ].

(** ** Accounts of the queue and of the pacing *)

(** A property of what has been pushed, shifted and sent so far and of
    what is queued, read off a state. *)
Definition account
    (P : list QueuedMessage -> list QueuedMessage -> list (string * JsValue)
         -> list QueuedMessage -> Prop) (st : State) : Prop :=
  P (pushed (trace st)) (shifted (trace st)) (sends (trace st)) (messageQueue st).

(** The flag is set only while an activation exists. *)
Definition flag_tracks (st : State) : Prop :=
  isProcessingQueue st = true -> drains st <> [].

Definition healthy (st : State) : Prop :=
  single_drain st /\ no_callbacks st /\ flag_tracks st.

(** Every send reported as successful up to now happened at least the
    pacing delay before [x]. *)
Definition sent_before (x : Z) (tr : list (Z * Action)) : Prop :=
  forall t m, In (t, Outcome m sent) tr -> (t + pacing_delay <= x)%Z.

(** No call of [client.sendMessage] comes less than the pacing delay after
    a send reported as successful. *)
Definition sends_spaced (tr : list (Z * Action)) : Prop :=
  forall pre t m post t' c b,
    tr = (pre ++ (t, Outcome m sent) :: post)%list ->
    In (t', SendMessage c b) post -> (t + pacing_delay <= t')%Z.

(** The earliest time at which the server may call [client.sendMessage]
    again: the time of the pending timer, or now. *)
Definition gate (st : State) : Z :=
  match drains st with
  | AwaitDelay _ wake :: _ => wake
  | _ => now st
  end.

Definition paced (st : State) : Prop :=
  sends_spaced (trace st) /\ sent_before (gate st) (trace st).

Definition is_send (a : Action) : bool :=
  match a with SendMessage _ _ => true | _ => false end.

Definition is_sent_outcome (a : Action) : bool :=
  match a with Outcome _ sent => true | _ => false end.


(** ** The answers of the routes that enqueue (server.js, lines 232-406) *)

(** An element of [results]. *)
Module result.
Record t := {
  index : nat;
  staff_id : option JsValue;
  success : bool;
  message_id : option nat;
  status : option string;
  error : option string
}.
End result.

(** What [res.status(code).json(body)] sends: the code, [success], the
    [message] or the [error], the title echoed by the notification routes,
    the results and the queue length. *)
Module response.
Record t := {
  code : nat;
  success : bool;
  text : string;
  title : option JsValue;
  results : list result.t;
  queue_length : option nat
}.
End response.

(** The string that [connectionStatus] holds. *)
Definition status_name (c : ConnectionStatus) : string :=
  match c with
  | initializing => "initializing"
  | qr_ready => "qr_ready"
  | authenticated => "authenticated"
  | ready => "ready"
  | auth_failed => "auth_failed"
  | disconnected => "disconnected"
  | resetting => "resetting"
  end.

Definition not_ready_error (st : State) : string :=
  "WhatsApp client is not ready. Current status: " ++ status_name (connectionStatus st).

(** The element of a request that an entry was made of, and the test of
    line 253 on an element. *)
Definition item_of (m : QueuedMessage) : BulkItem :=
  {| item_number := number m; item_message := message m |}.


Definition refused (code : nat) (error : string) : response.t :=
  {| response.code := code; response.success := false; response.text := error;
     response.title := None; response.results := []; response.queue_length := None |}.

Definition result_queued (index : nat) (staff_id : option JsValue) (message_id : nat)
  : result.t :=
  {| result.index := index; result.staff_id := staff_id; result.success := true;
     result.message_id := Some message_id; result.status := Some "queued";
     result.error := None |}.

Definition result_refused (index : nat) : result.t :=
  {| result.index := index; result.staff_id := None; result.success := false;
     result.message_id := None; result.status := None;
     result.error := Some "Number and message are required" |}.

(** [messages.forEach((msg, index) => ...)] of lines 252-276, from [index]
    on: the results and the state. *)
Fixpoint bulk_forEach (index : nat) (messages : list BulkItem)
    (results : list result.t) (st : State) : list result.t * State :=
  match messages with
  | [] => (results, st)
  | msg :: rest =>
      if negb (truthy (item_number msg)) || negb (truthy (item_message msg))
      then bulk_forEach (S index) rest (results ++ [result_refused index]) st
      else bulk_forEach (S index) rest
             (results ++ [result_queued index None (next_uuid st)])
             (push_message msg st)
  end.

(** POST /api/send-bulk-messages with its answer. *)
Definition send_bulk_messages (messages : list BulkItem) (st : State)
  : response.t * State :=
  if (length messages =? 0)%nat
  then (refused 400 "Messages array is required and cannot be empty", st)
  else if negb (isClientReady st)
  then (refused 503 (not_ready_error st), st)
  else
    let '(results, st) := bulk_forEach 0 messages [] st in
    let st := processMessageQueue st in
    ({| response.code := 200; response.success := true;
        response.text :=
          ToString (JNumber (Z.of_nat (length (filter (fun r => result.success r = true)
                                                      results))))
          ++ " messages queued successfully";
        response.title := None; response.results := results;
        response.queue_length := Some (length (messageQueue st)) |}, st).

(** [staff_list.map(staff => ({number: staff.mobile_number, message:
    render(staff)}))] of lines 307-313 and 367-373: the first call that
    throws ends the map. *)
Fixpoint render_messages (render : staff.t -> Completion string)
    (staff_list : list staff.t) : Completion (list BulkItem) :=
  match staff_list with
  | [] => mret []
  | staff :: rest =>
      message ← render staff;
      items ← render_messages render rest;
      mret ({| item_number := staff.mobile_number staff;
               item_message := JString message |} :: items)
  end.

(** [messages.forEach((msg, index) => ...)] of lines 318-336 and 377-395. *)
Fixpoint staff_forEach (index : nat) (messages : list BulkItem)
    (staff_list : list staff.t) (results : list result.t) (st : State)
  : list result.t * State :=
  match messages, staff_list with
  | msg :: rest, staff :: staff_rest =>
      staff_forEach (S index) rest staff_rest
        (results ++ [result_queued index (Some (staff.id staff)) (next_uuid st)])
        (push_message msg st)
  | _, _ => (results, st)
  end.

(** The route of the event and of the task notifications: [subject] is the
    [event] or [task] of the body if it is there, [render] the templater
    applied to it, [what] the first word of the answer.  An exception of
    the templater leaves the handler before anything is pushed. *)
Definition send_staff_messages (what : string) (subject_title : option JsValue)
    (render : staff.t -> Completion string) (staff_list : list staff.t) (st : State)
  : Completion response.t * State :=
  match subject_title with
  | None => (Normal (refused 400 (what ++ " data and staff list are required")), st)
  | Some title =>
      if (length staff_list =? 0)%nat
      then (Normal (refused 400 (what ++ " data and staff list are required")), st)
      else if negb (isClientReady st)
      then (Normal (refused 503 (not_ready_error st)), st)
      else
        match render_messages render staff_list with
        | Throw e => (Throw e, st)
        | Normal messages =>
            let '(results, st) := staff_forEach 0 messages staff_list [] st in
            let st := processMessageQueue st in
            (Normal
               {| response.code := 200; response.success := true;
                  response.text :=
                    what ++ " notifications queued for "
                    ++ ToString (JNumber (Z.of_nat (length staff_list)))
                    ++ " staff members";
                  response.title := Some title; response.results := results;
                  response.queue_length := Some (length (messageQueue st)) |}, st)
        end
  end.

Section Routes.
Context `{JsRuntime}.

(** POST /api/send-event-messages (lines 290-347) and
    POST /api/send-task-messages (lines 350-406); [None] is a body without
    the event or the task. *)
Definition send_event_messages (ev : option event.t) (staff_list : list staff.t)
    (st : State) : Completion response.t * State :=
  match ev with
  | None => send_staff_messages "Event" None (fun _ => Throw (Error "")) staff_list st
  | Some ev =>
      send_staff_messages "Event" (Some (event.title ev)) (formatEventMessage ev)
        staff_list st
  end.

Definition send_task_messages (tk : option task.t) (staff_list : list staff.t)
    (st : State) : Completion response.t * State :=
  match tk with
  | None => send_staff_messages "Task" None (fun _ => Throw (Error "")) staff_list st
  | Some tk =>
      send_staff_messages "Task" (Some (task.title tk)) (formatTaskMessage tk)
        staff_list st
  end.

End Routes.

(** ** What the templaters need of their arguments *)



Definition starts_with (p s : string) : Prop := exists r, s = p ++ r.

Definition ends_with (f s : string) : Prop := exists l, s = l ++ f.

(** ** What the log of the drain holds *)







(** The session callbacks and the reset route, the only code that assigns
    [isClientReady]. *)
Definition sets_ready (ev : Event) : option bool :=
  match ev with
  | ClientReady => Some true
  | ClientDisconnected | HttpReset => Some false
  | _ => None
  end.

(** * Theorems *)

(** ** Strings as lists of characters *)

Lemma length_list_ascii (s : string) :
  length (list_ascii_of_string s) = String.length s.
Proof. induction s as [|c s IH]; simpl; [reflexivity|now rewrite IH]. Qed.

Lemma list_ascii_append (s t : string) :
  list_ascii_of_string (s ++ t) = (list_ascii_of_string s ++ list_ascii_of_string t)%list.
Proof. induction s as [|c s IH]; simpl; [reflexivity|now rewrite IH]. Qed.

Lemma list_ascii_substring (s : string) : forall n m,
  list_ascii_of_string (String.substring n m s) = take m (drop n (list_ascii_of_string s)).
Proof.
  induction s as [|c s IH]; intros n m.
  - destruct n, m; reflexivity.
  - destruct n as [|n].
    + destruct m as [|m]; simpl; [reflexivity|].
      rewrite (IH 0 m). now rewrite drop_0.
    + simpl. apply IH.
Qed.

Lemma list_ascii_replace_non_digits (s : string) :
  list_ascii_of_string (replace_non_digits s) = digits_of s.
Proof.
  unfold digits_of. induction s as [|c s IH]; [reflexivity|].
  cbn [list_ascii_of_string replace_non_digits]. rewrite filter_cons.
  destruct (decide (is_digit c = true)) as [E|E].
  - rewrite E. cbn [list_ascii_of_string]. now rewrite IH.
  - apply not_true_is_false in E. now rewrite E.
Qed.

Lemma string_eq_by_list (s t : string) :
  list_ascii_of_string s = list_ascii_of_string t -> s = t.
Proof.
  intros H. rewrite <- (string_of_list_ascii_of_string s), H.
  apply string_of_list_ascii_of_string.
Qed.

Lemma prefix_91_list (s : string) :
  String.prefix "91" s = true <-> starts_with_91 (list_ascii_of_string s).
Proof.
  unfold starts_with_91. split.
  - destruct s as [|a [|b s]]; cbn [String.prefix list_ascii_of_string];
      try discriminate.
    + destruct (ascii_dec "9" a); discriminate.
    + destruct (ascii_dec "9" a) as [<-|]; [|discriminate].
      destruct (ascii_dec "1" b) as [<-|]; [|discriminate].
      intros _. now exists (list_ascii_of_string s).
  - intros [rest H].
    destruct s as [|a [|b s]]; cbn [String.prefix list_ascii_of_string] in *;
      try discriminate.
    injection H as Ha Hb _. subst a b.
    destruct (ascii_dec "9" "9"); [|congruence].
    destruct (ascii_dec "1" "1"); [|congruence].
    now destruct s.
Qed.

Lemma list_ascii_slice_last (k : nat) (s : string) :
  0 < k <= String.length s ->
  list_ascii_of_string (String_slice (- Z.of_nat k) s)
  = drop (String.length s - k) (list_ascii_of_string s).
Proof.
  intros Hk. unfold String_slice. rewrite list_ascii_substring.
  destruct (Z.ltb_spec (- Z.of_nat k) 0) as [Hneg|Hpos]; [|lia].
  rewrite Z.max_l by lia.
  replace (Z.to_nat (Z.of_nat (String.length s) + - Z.of_nat k))
    with (String.length s - k) by lia.
  apply take_ge. rewrite length_drop, length_list_ascii. lia.
Qed.

(** What the formatter computes, on the list of digits of its input. *)
Lemma formatPhoneNumber_digits (raw : string) :
  let ds := digits_of raw in
  list_ascii_of_string (formatPhoneNumber raw) =
    if String.prefix "91" (replace_non_digits raw) && (length ds =? 12)%nat then ds
    else if (length ds =? 10)%nat then "9"%char :: "1"%char :: ds
    else if (10 <=? length ds)%nat
         then "9"%char :: "1"%char :: drop (length ds - 10) ds
    else ds.
Proof.
  intros ds. unfold formatPhoneNumber.
  assert (Hlen : String.length (replace_non_digits raw) = length ds).
  { unfold ds. now rewrite <- list_ascii_replace_non_digits, length_list_ascii. }
  rewrite Hlen.
  destruct (String.prefix "91" (replace_non_digits raw) && (length ds =? 12)%nat).
  { apply list_ascii_replace_non_digits. }
  destruct (length ds =? 10)%nat.
  { rewrite list_ascii_append, list_ascii_replace_non_digits. reflexivity. }
  destruct (Nat.leb_spec 10 (length ds)) as [Hge|Hlt].
  - rewrite list_ascii_append. change (-10)%Z with (- Z.of_nat 10)%Z.
    rewrite list_ascii_slice_last by lia.
    rewrite Hlen, list_ascii_replace_non_digits. reflexivity.
  - apply list_ascii_replace_non_digits.
Qed.

Lemma digits_of_all_digits (raw : string) : Forall (fun c => is_digit c = true) (digits_of raw).
Proof.
  unfold digits_of. apply list.Forall_forall. intros c Hc.
  apply list_elem_of_filter in Hc. tauto.
Qed.

Lemma replace_non_digits_id (s : string) : all_digits s -> replace_non_digits s = s.
Proof.
  unfold all_digits. induction s as [|c s IH]; [reflexivity|].
  cbn [list_ascii_of_string replace_non_digits]. intros H.
  apply Forall_cons_1 in H as [Hc Hs]. rewrite Hc. f_equal. auto.
Qed.

Lemma replace_non_digits_all_digits (raw : string) : all_digits (replace_non_digits raw).
Proof.
  unfold all_digits. rewrite list_ascii_replace_non_digits. apply digits_of_all_digits.
Qed.

(** A string of digits that is either a 12-digit "91" number or shorter than
    ten digits is returned as it is. *)
Lemma formatPhoneNumber_fixed (s : string) :
  all_digits s ->
  (String.prefix "91" s = true /\ String.length s = 12) \/ String.length s < 10 ->
  formatPhoneNumber s = s.
Proof.
  intros Hd Hs. unfold formatPhoneNumber. rewrite (replace_non_digits_id s Hd).
  destruct Hs as [[Hp Hl]|Hl].
  - now rewrite Hp, Hl.
  - destruct (Nat.eqb_spec (String.length s) 12); [lia|]. rewrite andb_false_r.
    destruct (Nat.eqb_spec (String.length s) 10); [lia|].
    destruct (Nat.leb_spec 10 (String.length s)); [lia|reflexivity].
Qed.

Lemma all_digits_91 (s : string) : all_digits s -> all_digits ("91" ++ s).
Proof.
  unfold all_digits. cbn [append list_ascii_of_string]. intros H.
  repeat (apply Forall_cons; split; [reflexivity|]). exact H.
Qed.

Lemma prefix_91_app (s : string) : String.prefix "91" ("91" ++ s) = true.
Proof.
  cbn [append String.prefix].
  destruct (ascii_dec "9" "9"); [|congruence].
  destruct (ascii_dec "1" "1"); [|congruence].
  now destruct s.
Qed.

Lemma length_91_app (s : string) : String.length ("91" ++ s) = S (S (String.length s)).
Proof. reflexivity. Qed.

Lemma formatPhoneNumber_last_ten (digits : string) :
  all_digits digits -> 10 <= String.length digits ->
  let r := "91" ++ String_slice (-10) digits in
  all_digits r /\ String.prefix "91" r = true /\ String.length r = 12.
Proof.
  intros Hd Hge r.
  assert (Hl : list_ascii_of_string (String_slice (-10) digits)
               = drop (String.length digits - 10) (list_ascii_of_string digits)).
  { change (-10)%Z with (- Z.of_nat 10)%Z. apply list_ascii_slice_last. lia. }
  split; [|split].
  - apply all_digits_91. unfold all_digits. rewrite Hl. now apply Forall_drop.
  - apply prefix_91_app.
  - unfold r. rewrite length_91_app.
    rewrite <- (length_list_ascii (String_slice _ _)), Hl, length_drop, length_list_ascii.
    lia.
Qed.

(** Every result of the formatter is of the shape that it leaves alone. *)
Lemma formatPhoneNumber_shape (raw : string) :
  let r := formatPhoneNumber raw in
  all_digits r /\
  ((String.prefix "91" r = true /\ String.length r = 12) \/ String.length r < 10).
Proof.
  cbv zeta. unfold formatPhoneNumber.
  pose proof (replace_non_digits_all_digits raw) as Hd.
  set (digits := replace_non_digits raw) in *.
  destruct (String.prefix "91" digits && (String.length digits =? 12)%nat) eqn:Hstep2.
  { apply andb_true_iff in Hstep2 as [Hp H12]. apply Nat.eqb_eq in H12.
    split; [exact Hd|]. left. now split. }
  destruct (Nat.eqb_spec (String.length digits) 10) as [H10|H10].
  { split; [now apply all_digits_91|]. left. split; [apply prefix_91_app|].
    now rewrite length_91_app, H10. }
  destruct (Nat.leb_spec 10 (String.length digits)) as [Hge|Hlt].
  - destruct (formatPhoneNumber_last_ten digits Hd Hge) as (Ha & Hp & Hl).
    split; [exact Ha|]. left. now split.
  - split; [exact Hd|]. now right.
Qed.

(** ** Phone-number normalization *)

(** C4.  On every string, [formatPhoneNumber] follows the five-step rule of
    the specification (strip the non-digits; a 12-digit "91" number as it
    is; ten digits get "91" in front; ten or more give "91" and the last
    ten digits; fewer than ten digits are returned stripped), the call
    completes normally (no exception), and a string of exactly ten digits
    [d] becomes "91" followed by [d]. *)
Theorem formatPhoneNumber_five_step_rule (raw : string) :
  normalize_rule raw (formatPhoneNumber raw) /\
  call_formatPhoneNumber (JString raw) = Normal (formatPhoneNumber raw) /\
  (all_digits raw -> String.length raw = 10 -> formatPhoneNumber raw = "91" ++ raw).
Proof.
  split; [|split; [reflexivity|]].
  - pose proof (formatPhoneNumber_digits raw) as H. cbv zeta in H.
    assert (Hlen : String.length (replace_non_digits raw) = length (digits_of raw)).
    { now rewrite <- list_ascii_replace_non_digits, length_list_ascii. }
    assert (Hpre : String.prefix "91" (replace_non_digits raw) = true
                   <-> starts_with_91 (digits_of raw)).
    { rewrite prefix_91_list. now rewrite list_ascii_replace_non_digits. }
    unfold normalize_rule. cbv zeta.
    set (ds := digits_of raw) in *.
    repeat split.
    + intros [H91 H12]. apply string_eq_by_list.
      rewrite H, list_ascii_of_string_of_list_ascii.
      apply Hpre in H91. rewrite H91, H12. reflexivity.
    + intros Hn H10. apply string_eq_by_list. rewrite H, H10.
      rewrite andb_false_r. cbn [Nat.eqb].
      rewrite list_ascii_append, list_ascii_of_string_of_list_ascii. reflexivity.
    + intros Hn H10 Hge. apply string_eq_by_list. rewrite H.
      replace (String.prefix "91" (replace_non_digits raw) && (length ds =? 12)%nat)
        with false.
      2:{ symmetry. apply andb_false_iff.
          destruct (String.prefix "91" (replace_non_digits raw)) eqn:Hp; [|now left].
          right. apply Nat.eqb_neq. intros H12. apply Hn. split; [|exact H12].
          now apply Hpre. }
      apply Nat.eqb_neq in H10. rewrite H10.
      apply Nat.leb_le in Hge. rewrite Hge.
      rewrite list_ascii_append, list_ascii_of_string_of_list_ascii. reflexivity.
    + intros Hlt. apply string_eq_by_list. rewrite H.
      destruct (Nat.eqb_spec (length ds) 12); [lia|]. rewrite andb_false_r.
      destruct (Nat.eqb_spec (length ds) 10); [lia|].
      destruct (Nat.leb_spec 10 (length ds)); [lia|].
      now rewrite list_ascii_of_string_of_list_ascii.
  - intros Hd H10. unfold formatPhoneNumber.
    rewrite (replace_non_digits_id raw Hd), H10, andb_false_r. reflexivity.
Qed.

Lemma formatPhoneNumber_five_step_rule_witness :
  normalize_rule "9876543210" "919876543210" /\
  call_formatPhoneNumber (JString "9876543210") = Normal "919876543210" /\
  formatPhoneNumber "9876543210" = "919876543210".
Proof.
  destruct (formatPhoneNumber_five_step_rule "9876543210") as (Hrule & Hcall & Hten).
  split; [exact Hrule|]. split; [exact Hcall|].
  apply Hten.
  - unfold all_digits. cbn [list_ascii_of_string].
    repeat (apply Forall_cons; split; [reflexivity|]). apply Forall_nil_2.
  - reflexivity.
Defined.

(** C9.  [formatPhoneNumber] is idempotent on every string. *)
Theorem formatPhoneNumber_idempotent (x : string) :
  formatPhoneNumber (formatPhoneNumber x) = formatPhoneNumber x.
Proof.
  destruct (formatPhoneNumber_shape x) as [Hd Hs].
  now apply formatPhoneNumber_fixed.
Qed.

(** ** The drain loop *)

Lemma pushed_app tr1 tr2 : pushed (tr1 ++ tr2) = (pushed tr1 ++ pushed tr2)%list.
Proof. apply omap_app. Qed.

Lemma shifted_app tr1 tr2 : shifted (tr1 ++ tr2) = (shifted tr1 ++ shifted tr2)%list.
Proof. apply omap_app. Qed.

Lemma sends_app tr1 tr2 : sends (tr1 ++ tr2) = (sends tr1 ++ sends tr2)%list.
Proof. apply omap_app. Qed.

(** What one run of the loop does to the queue: it shifts a prefix, pushes
    nothing, and calls [client.sendMessage] for the shifted entries that
    have a string for a number, in their order. *)
Lemma while_loop_actions (t : Z) (b : bool) (q : list QueuedMessage) :
  forall q' acts ex, while_loop b q = (q', acts, ex) ->
  let tr := map (fun a => (t, a)) acts in
  (shifted tr ++ q')%list = q /\ pushed tr = [] /\ sends tr = omap send_of (shifted tr).
Proof.
  induction q as [|m q IH]; intros q' acts ex Hw; cbn [while_loop] in Hw.
  { now inversion Hw. }
  destruct b; [|now inversion Hw].
  destruct (call_formatPhoneNumber (number m)) as [fn|error] eqn:Hcall.
  - inversion Hw; subst. cbn. unfold send_of.
    destruct (number m); try discriminate. now inversion Hcall.
  - assert (Hsend : send_of m = None).
    { unfold send_of. now destruct (number m). }
    destruct (catch_block m error).
    + destruct (while_loop true q) as [[q1 acts1] ex1].
      destruct (IH q1 acts1 ex1 eq_refl) as (IH1 & IH2 & IH3).
      inversion Hw; subst. cbn. rewrite Hsend. repeat split; assumption || congruence.
    + inversion Hw; subst. cbn. now rewrite Hsend.
Qed.

(** A run of the loop touches the queue, the trace and the flag only. *)
Lemma run_loop_spec (st st' : State) (ex : LoopExit) :
  run_loop st = (st', ex) ->
  exists q' acts,
    while_loop (isClientReady st) (messageQueue st) = (q', acts, ex)
    /\ messageQueue st' = q'
    /\ trace st' = (trace st ++ map (fun a => (now st, a)) acts)%list
    /\ isProcessingQueue st'
       = match ex with Completed => false | _ => isProcessingQueue st end
    /\ isClientReady st' = isClientReady st
    /\ connectionStatus st' = connectionStatus st
    /\ drains st' = drains st
    /\ now st' = now st
    /\ next_uuid st' = next_uuid st.
Proof.
  unfold run_loop. destruct (while_loop _ _) as [[q' acts] ex'].
  intros Hr. exists q', acts.
  destruct ex'; inversion Hr; subst; cbn; repeat split; reflexivity.
Qed.

Lemma while_loop_Forall (P : QueuedMessage -> Prop) (b : bool) (q : list QueuedMessage) :
  Forall P q ->
  forall q' acts ex, while_loop b q = (q', acts, ex) ->
  Forall P q' /\ (forall pc, ex = Suspended pc -> P (held pc)).
Proof.
  induction 1 as [|m q Hm Hq IH]; intros q' acts ex Hw; cbn [while_loop] in Hw.
  { inversion Hw. split; [constructor|discriminate]. }
  destruct b.
  2:{ inversion Hw; subst. split; [now constructor|discriminate]. }
  destruct (call_formatPhoneNumber (number m)).
  - inversion Hw; subst. split; [exact Hq|]. intros pc [= <-]. exact Hm.
  - destruct (catch_block m e).
    + destruct (while_loop true q) as [[q1 acts1] ex1].
      inversion Hw; subst. now apply (IH q' acts1 ex).
    + inversion Hw; subst. split; [exact Hq|discriminate].
Qed.

(** Without callbacks no exception leaves the loop. *)
Lemma while_loop_no_escape (b : bool) (q : list QueuedMessage) :
  Forall no_callback q ->
  forall q' acts ex, while_loop b q = (q', acts, ex) ->
  match ex with Escaped _ => False | _ => True end.
Proof.
  induction 1 as [|m q Hm Hq IH]; intros q' acts ex Hw; cbn [while_loop] in Hw.
  { now inversion Hw. }
  destruct b; [|now inversion Hw].
  destruct (call_formatPhoneNumber (number m)); [now inversion Hw|].
  unfold catch_block, notify in Hw. rewrite Hm in Hw. cbn in Hw.
  destruct (while_loop true q) as [[q1 acts1] ex1].
  inversion Hw; subst. now apply (IH q' acts1 ex).
Qed.

(** *** At most one activation *)

Lemma processMessageQueue_guard (st : State) :
  isProcessingQueue st = true \/ messageQueue st = [] \/ isClientReady st = false ->
  processMessageQueue st = st.
Proof.
  intros H. unfold processMessageQueue.
  destruct H as [->|[->| ->]]; cbn; rewrite ?orb_true_r; reflexivity.
Qed.

Lemma processMessageQueue_single_drain (st : State) :
  single_drain st -> single_drain (processMessageQueue st).
Proof.
  intros Hinv. pose proof Hinv as [Hlen Hflag]. unfold processMessageQueue.
  destruct (isProcessingQueue st) eqn:Hp; cbn [orb]; [exact Hinv|].
  destruct (_ || _); [exact Hinv|].
  assert (Hd : drains st = []).
  { destruct (drains st); [reflexivity|]. now discriminate Hflag. }
  destruct (run_loop _) as [st' ex] eqn:Hr.
  apply run_loop_spec in Hr as (q' & acts & _ & _ & _ & Hf & _ & _ & Hdr & _).
  cbn in Hf, Hdr. rewrite Hd in Hdr.
  destruct ex; unfold single_drain; cbn; rewrite ?Hdr, ?Hf; cbn; split; auto; done.
Qed.

Lemma continue_loop_single_drain (i : nat) (st : State) :
  single_drain st -> is_Some (drains st !! i) -> single_drain (continue_loop i st).
Proof.
  intros [Hlen Hflag] Hi. unfold continue_loop.
  destruct (run_loop st) as [st' ex] eqn:Hr.
  apply run_loop_spec in Hr as (q' & acts & _ & _ & _ & Hf & _ & _ & Hdr & _).
  assert (Hne : drains st <> []).
  { intros E. rewrite E in Hi. now destruct Hi. }
  assert (i = 0) as ->.
  { apply lookup_lt_is_Some in Hi. lia. }
  destruct (drains st) as [|pc [|pc' ds]] eqn:Hds; [done| |cbn in Hlen; lia].
  destruct ex; unfold single_drain; cbn; rewrite Hdr; cbn;
    (split; [lia|]); try done.
  intros _. rewrite Hf. now apply Hflag.
Qed.

Lemma enter_catch_single_drain (i : nat) (m : QueuedMessage) (error : Exn) (st : State) :
  single_drain st -> is_Some (drains st !! i) -> single_drain (enter_catch i m error st).
Proof.
  intros Hinv Hi. unfold enter_catch. destruct (catch_block m error).
  - now apply continue_loop_single_drain.
  - destruct Hinv as [Hlen Hflag]. unfold single_drain. cbn.
    assert (i = 0) as -> by (apply lookup_lt_is_Some in Hi; lia).
    destruct (drains st) as [|pc [|pc' ds]]; cbn in *.
    + now destruct Hi.
    + split; [lia|done].
    + lia.
Qed.

Lemma resume_send_single_drain (i : nat) (r : SendResult) (st st' : State) :
  single_drain st -> resume_send i r st = Some st' -> single_drain st'.
Proof.
  intros Hinv. unfold resume_send.
  destruct (drains st !! i) as [[m fn|m wake]|] eqn:Hi; [|discriminate..].
  assert (His : is_Some (drains st !! i)) by (now rewrite Hi).
  destruct r as [|error].
  - destruct (notify m sent None).
    + intros [= <-]. destruct Hinv as [Hlen Hflag]. unfold single_drain. cbn.
      rewrite length_insert. split; [exact Hlen|]. intros _. apply Hflag.
      intros E. rewrite E in Hi. discriminate.
    + intros [= <-]. now apply enter_catch_single_drain.
  - intros [= <-]. now apply enter_catch_single_drain.
Qed.

Lemma resume_delay_single_drain (i : nat) (st st' : State) :
  single_drain st -> resume_delay i st = Some st' -> single_drain st'.
Proof.
  intros Hinv. unfold resume_delay.
  destruct (drains st !! i) as [[m fn|m wake]|] eqn:Hi; [discriminate| |discriminate].
  destruct (wake <=? now st)%Z; [|discriminate].
  intros [= <-]. apply continue_loop_single_drain; [exact Hinv|now rewrite Hi].
Qed.

Lemma push_message_frame (item : BulkItem) (st : State) :
  drains (push_message item st) = drains st
  /\ isProcessingQueue (push_message item st) = isProcessingQueue st
  /\ isClientReady (push_message item st) = isClientReady st
  /\ now (push_message item st) = now st
  /\ shifted (trace (push_message item st)) = shifted (trace st).
Proof.
  repeat split. unfold push_message, emit. cbn.
  rewrite shifted_app. cbn. apply app_nil_r.
Qed.

Lemma fold_push_frame (f : BulkItem -> bool) (items : list BulkItem) (st : State) :
  let st' := fold_left (fun st msg => if f msg then st else push_message msg st) items st in
  drains st' = drains st
  /\ isProcessingQueue st' = isProcessingQueue st
  /\ isClientReady st' = isClientReady st
  /\ now st' = now st
  /\ shifted (trace st') = shifted (trace st).
Proof.
  revert st. induction items as [|item items IH]; intros st; [done|].
  cbn [fold_left]. destruct (f item); [apply IH|].
  destruct (IH (push_message item st)) as (H1 & H2 & H3 & H4 & H5).
  cbv zeta. rewrite H1, H2, H3, H4, H5. apply push_message_frame.
Qed.

(** A request that enqueues while the flag is set starts nothing. *)
Lemma enqueue_while_busy (f : BulkItem -> bool) (items : list BulkItem) (st : State) :
  isProcessingQueue st = true ->
  let st' := processMessageQueue
               (fold_left (fun st msg => if f msg then st else push_message msg st)
                          items st) in
  drains st' = drains st /\ shifted (trace st') = shifted (trace st).
Proof.
  intros Hflag. destruct (fold_push_frame f items st) as (H1 & H2 & _ & _ & H5).
  cbv zeta. rewrite processMessageQueue_guard; [now split|].
  left. now rewrite H2.
Qed.

Lemma fold_push_single_drain (f : BulkItem -> bool) (items : list BulkItem) (st : State) :
  single_drain st ->
  single_drain (fold_left (fun st msg => if f msg then st else push_message msg st) items st).
Proof.
  intros [Hlen Hflag]. destruct (fold_push_frame f items st) as (H1 & H2 & _).
  unfold single_drain. cbv zeta in H1, H2. now rewrite H1, H2.
Qed.

Lemma post_send_bulk_messages_single_drain (messages : list BulkItem) (st : State) :
  single_drain st -> single_drain (post_send_bulk_messages messages st).
Proof.
  intros Hinv. unfold post_send_bulk_messages.
  destruct (_ =? _)%nat; [exact Hinv|]. destruct (negb _); [exact Hinv|].
  apply processMessageQueue_single_drain.
  apply (fold_push_single_drain
           (fun msg => negb (truthy (item_number msg)) || negb (truthy (item_message msg)))).
  exact Hinv.
Qed.

Lemma post_send_notifications_single_drain (messages : list BulkItem) (st : State) :
  single_drain st -> single_drain (post_send_notifications messages st).
Proof.
  intros Hinv. unfold post_send_notifications.
  destruct (_ =? _)%nat; [exact Hinv|]. destruct (negb _); [exact Hinv|].
  apply processMessageQueue_single_drain.
  apply (fold_push_single_drain (fun _ => false)). exact Hinv.
Qed.

Lemma step_single_drain (ev : Event) (st st' : State) :
  single_drain st -> step ev st = Some st' -> single_drain st'.
Proof.
  intros Hinv. destruct ev; cbn [step].
  - intros [= <-]. now apply post_send_bulk_messages_single_drain.
  - intros [= <-]. now apply post_send_notifications_single_drain.
  - intros [= <-]. exact Hinv.
  - intros [= <-]. exact Hinv.
  - intros [= <-]. unfold cron_tick.
    destruct (_ && _); [now apply processMessageQueue_single_drain|exact Hinv].
  - intros [= <-]. exact Hinv.
  - intros [= <-]. exact Hinv.
  - intros [= <-]. exact Hinv.
  - intros [= <-]. exact Hinv.
  - intros [= <-]. exact Hinv.
  - now apply resume_send_single_drain.
  - now apply resume_delay_single_drain.
  - destruct (0 <=? dt)%Z; [|discriminate]. intros [= <-]. exact Hinv.
Qed.

Lemma exec_invariant (P : State -> Prop) (evs : list Event) :
  (forall ev st st', In ev evs -> P st -> step ev st = Some st' -> P st') ->
  forall st st', P st -> exec evs st = Some st' -> P st'.
Proof.
  induction evs as [|ev evs IH]; intros Hstep st st' HP; cbn [exec].
  { now intros [= <-]. }
  destruct (step ev st) as [st1|] eqn:Hev; [|discriminate].
  apply IH.
  - intros ev' s s' Hin. apply Hstep. now right.
  - apply (Hstep ev st st1); [now left|exact HP|exact Hev].
Qed.

Lemma reachable_single_drain (evs : list Event) (st : State) :
  exec evs initial_state = Some st -> single_drain st.
Proof.
  apply (exec_invariant single_drain).
  - intros ev s s' _. apply step_single_drain.
  - split; [cbn; lia|done].
Qed.

(** C2.  A call of [processMessageQueue] is a no-op when the flag is set,
    the queue is empty or the session is not ready; in every state the
    server can reach at most one activation of the drain procedure exists;
    and while one exists, neither a request that enqueues nor a tick of
    the scheduler starts another. *)
Theorem at_most_one_drain :
  (forall st,
     isProcessingQueue st = true \/ messageQueue st = [] \/ isClientReady st = false ->
     processMessageQueue st = st)
  /\ (forall evs st, exec evs initial_state = Some st -> length (drains st) <= 1)
  /\ (forall evs st ev st',
        exec evs initial_state = Some st -> drains st <> [] ->
        ev = CronTick \/ (exists ms, ev = HttpSendBulk ms)
          \/ (exists ms, ev = HttpSendNotifications ms) ->
        step ev st = Some st' ->
        drains st' = drains st /\ shifted (trace st') = shifted (trace st)).
Proof.
  split; [exact processMessageQueue_guard|]. split.
  { intros evs st Hex. now apply (reachable_single_drain evs). }
  intros evs st ev st' Hex Hne Hev Hstep.
  destruct (reachable_single_drain evs st Hex) as [_ Hflag].
  specialize (Hflag Hne).
  destruct Hev as [->|[[ms ->]|[ms ->]]]; cbn [step] in Hstep; injection Hstep as <-.
  - unfold cron_tick. rewrite Hflag, andb_false_r. done.
  - unfold post_send_bulk_messages.
    destruct (_ =? _)%nat; [done|]. destruct (negb _); [done|].
    apply (enqueue_while_busy
             (fun msg => negb (truthy (item_number msg)) || negb (truthy (item_message msg)))).
    exact Hflag.
  - unfold post_send_notifications.
    destruct (_ =? _)%nat; [done|]. destruct (negb _); [done|].
    apply (enqueue_while_busy (fun _ => false)). exact Hflag.
Qed.

Lemma at_most_one_drain_witness :
  processMessageQueue initial_state = initial_state
  /\ length (drains (state_after scenario_events)) <= 1
  /\ drains (state_after (scenario_events ++ [CronTick]))
     = drains (state_after scenario_events).
Proof.
  destruct at_most_one_drain as (Hguard & Hone & Hbusy).
  split; [apply Hguard; right; left; reflexivity|].
  split; [apply (Hone scenario_events); vm_compute; reflexivity|].
  apply (Hbusy scenario_events (state_after scenario_events) CronTick).
  - vm_compute; reflexivity.
  - vm_compute; discriminate.
  - left; reflexivity.
  - vm_compute; reflexivity.
Defined.

(** *** First in, first out *)

Lemma run_loop_fifo (st st' : State) (ex : LoopExit) :
  fifo st -> run_loop st = (st', ex) -> fifo st'.
Proof.
  intros [Hq Hs] Hr.
  apply run_loop_spec in Hr as (q' & acts & Hw & Hq' & Htr & _).
  apply (while_loop_actions (now st)) in Hw as (H1 & H2 & H3). cbv zeta in *.
  unfold fifo. rewrite Htr, Hq', pushed_app, shifted_app, sends_app, omap_app.
  rewrite H2, app_nil_r, Hq, <- H1, H3, Hs. now rewrite app_assoc.
Qed.

Lemma fifo_ext (st st' : State) :
  messageQueue st' = messageQueue st -> trace st' = trace st -> fifo st -> fifo st'.
Proof. unfold fifo. now intros -> ->. Qed.

Lemma emit_silent (acts : list Action) (st : State) :
  forallb silent acts = true ->
  pushed (trace (emit acts st)) = pushed (trace st)
  /\ shifted (trace (emit acts st)) = shifted (trace st)
  /\ sends (trace (emit acts st)) = sends (trace st).
Proof.
  intros Hs. unfold emit. cbn [trace].
  rewrite pushed_app, shifted_app, sends_app.
  assert (H : pushed (map (fun a => (now st, a)) acts) = []
              /\ shifted (map (fun a => (now st, a)) acts) = []
              /\ sends (map (fun a => (now st, a)) acts) = []).
  { induction acts as [|a acts IH]; [done|].
    cbn [forallb] in Hs. apply andb_true_iff in Hs as [Ha Hs].
    destruct (IH Hs) as (I1 & I2 & I3).
    destruct a; try discriminate; cbn; auto. }
  destruct H as (-> & -> & ->). now rewrite !app_nil_r.
Qed.

Lemma emit_silent_fifo (acts : list Action) (st : State) :
  forallb silent acts = true -> fifo st -> fifo (emit acts st).
Proof.
  intros Hs [Hq Hsend]. destruct (emit_silent acts st Hs) as (H1 & H2 & H3).
  unfold fifo. rewrite H1, H2, H3. now split.
Qed.

Lemma continue_loop_fifo (i : nat) (st : State) : fifo st -> fifo (continue_loop i st).
Proof.
  intros Hf. unfold continue_loop. destruct (run_loop st) as [st' ex] eqn:Hr.
  apply (run_loop_fifo _ _ _ Hf) in Hr. now destruct ex.
Qed.

Lemma enter_catch_fifo (i : nat) (m : QueuedMessage) (error : Exn) (st : State) :
  fifo st -> fifo (enter_catch i m error st).
Proof.
  intros Hf. unfold enter_catch. destruct (catch_block m error).
  - apply continue_loop_fifo. now apply emit_silent_fifo.
  - apply (fifo_ext (emit [Outcome m failed; Uncaught e] st)); [reflexivity| |].
    + unfold emit. cbn. now rewrite <- app_assoc.
    + now apply emit_silent_fifo.
Qed.

Lemma processMessageQueue_fifo (st : State) : fifo st -> fifo (processMessageQueue st).
Proof.
  intros Hf. unfold processMessageQueue. destruct (_ || _); [exact Hf|].
  destruct (run_loop _) as [st' ex] eqn:Hr.
  apply run_loop_fifo in Hr; [|exact Hf]. now destruct ex.
Qed.

Lemma push_message_fifo (item : BulkItem) (st : State) :
  fifo st -> fifo (push_message item st).
Proof.
  intros [Hq Hs]. unfold fifo, push_message, emit. cbn.
  rewrite pushed_app, shifted_app, sends_app. cbn.
  rewrite !app_nil_r, Hq, Hs. now rewrite app_assoc.
Qed.

Lemma fold_push_invariant (P : State -> Prop) (f : BulkItem -> bool)
    (items : list BulkItem) (st : State) :
  (forall item st, P st -> P (push_message item st)) ->
  P st ->
  P (fold_left (fun st msg => if f msg then st else push_message msg st) items st).
Proof.
  intros Hpush. revert st. induction items as [|item items IH]; intros st HP; [exact HP|].
  cbn [fold_left]. apply IH. destruct (f item); auto.
Qed.

Lemma step_fifo (ev : Event) (st st' : State) :
  is_clear ev = false -> fifo st -> step ev st = Some st' -> fifo st'.
Proof.
  intros Hclear Hf. destruct ev; cbn [step]; try discriminate Hclear;
    try (intros [= <-]; exact Hf).
  - intros [= <-]. unfold post_send_bulk_messages.
    destruct (_ =? _)%nat; [exact Hf|]. destruct (negb _); [exact Hf|].
    apply processMessageQueue_fifo.
    apply (fold_push_invariant fifo
             (fun msg => negb (truthy (item_number msg)) || negb (truthy (item_message msg))));
      [apply push_message_fifo|exact Hf].
  - intros [= <-]. unfold post_send_notifications.
    destruct (_ =? _)%nat; [exact Hf|]. destruct (negb _); [exact Hf|].
    apply processMessageQueue_fifo.
    apply (fold_push_invariant fifo (fun _ => false));
      [apply push_message_fifo|exact Hf].
  - intros [= <-]. unfold cron_tick.
    destruct (_ && _); [now apply processMessageQueue_fifo|exact Hf].
  - unfold resume_send.
    destruct (drains st !! i) as [[m fn|m wake]|]; [|discriminate..].
    destruct result as [|error].
    + destruct (notify m sent None).
      * intros [= <-].
        apply (fifo_ext (emit [Outcome m sent; SetTimeout pacing_delay] st));
          [reflexivity| |now apply emit_silent_fifo].
        unfold emit. cbn. now rewrite <- app_assoc.
      * intros [= <-]. apply enter_catch_fifo. now apply emit_silent_fifo.
    + intros [= <-]. now apply enter_catch_fifo.
  - unfold resume_delay.
    destruct (drains st !! i) as [[m fn|m wake]|]; [discriminate| |discriminate].
    destruct (wake <=? now st)%Z; [|discriminate].
    intros [= <-]. now apply continue_loop_fifo.
  - destruct (0 <=? dt)%Z; [|discriminate]. intros [= <-]. exact Hf.
Qed.

(** *** Fresh identifiers *)

Lemma fresh_ids_ext (st st' : State) :
  pushed (trace st') = pushed (trace st) -> next_uuid st' = next_uuid st ->
  fresh_ids st -> fresh_ids st'.
Proof. unfold fresh_ids. now intros -> ->. Qed.

Lemma run_loop_pushed (st st' : State) (ex : LoopExit) :
  run_loop st = (st', ex) ->
  pushed (trace st') = pushed (trace st) /\ next_uuid st' = next_uuid st.
Proof.
  intros Hr. apply run_loop_spec in Hr as (q' & acts & Hw & _ & Htr & H).
  apply (while_loop_actions (now st)) in Hw as (_ & H2 & _). cbv zeta in H2.
  rewrite Htr, pushed_app, H2, app_nil_r. split; [reflexivity|]. apply H.
Qed.

Lemma continue_loop_pushed (i : nat) (st : State) :
  pushed (trace (continue_loop i st)) = pushed (trace st)
  /\ next_uuid (continue_loop i st) = next_uuid st.
Proof.
  unfold continue_loop. destruct (run_loop st) as [st' ex] eqn:Hr.
  apply run_loop_pushed in Hr. now destruct ex.
Qed.

Lemma enter_catch_pushed (i : nat) (m : QueuedMessage) (error : Exn) (st : State) :
  pushed (trace (enter_catch i m error st)) = pushed (trace st)
  /\ next_uuid (enter_catch i m error st) = next_uuid st.
Proof.
  unfold enter_catch. destruct (catch_block m error).
  - destruct (continue_loop_pushed i (emit [Outcome m failed] st)) as [-> ->].
    split; [|reflexivity]. now apply emit_silent.
  - cbn. rewrite !pushed_app. cbn. now rewrite !app_nil_r.
Qed.

Lemma processMessageQueue_pushed (st : State) :
  pushed (trace (processMessageQueue st)) = pushed (trace st)
  /\ next_uuid (processMessageQueue st) = next_uuid st.
Proof.
  unfold processMessageQueue. destruct (_ || _); [done|].
  destruct (run_loop _) as [st' ex] eqn:Hr.
  apply run_loop_pushed in Hr. now destruct ex.
Qed.

Lemma push_message_fresh_ids (item : BulkItem) (st : State) :
  fresh_ids st -> fresh_ids (push_message item st).
Proof.
  intros [Hnd Hlt]. unfold fresh_ids, push_message, emit. cbn.
  rewrite pushed_app. cbn. split.
  - rewrite map_app. cbn. apply NoDup_app. repeat split.
    + exact Hnd.
    + intros x Hx Hx'. apply list_elem_of_singleton in Hx'. subst x.
      apply list_elem_of_fmap in Hx as (m & Hm & Hin).
      rewrite list.Forall_forall in Hlt. specialize (Hlt m Hin). lia.
    + apply NoDup_singleton.
  - apply Forall_app. split.
    + eapply Forall_impl; [exact Hlt|]. cbn. intros; lia.
    + repeat constructor.
Qed.

Lemma step_fresh_ids (ev : Event) (st st' : State) :
  fresh_ids st -> step ev st = Some st' -> fresh_ids st'.
Proof.
  intros Hf. destruct ev; cbn [step]; try (intros [= <-]; exact Hf).
  - intros [= <-]. unfold post_send_bulk_messages.
    destruct (_ =? _)%nat; [exact Hf|]. destruct (negb _); [exact Hf|].
    match goal with |- fresh_ids (processMessageQueue ?s) =>
      destruct (processMessageQueue_pushed s) as [H1 H2];
      apply (fresh_ids_ext s _ H1 H2) end.
    apply (fold_push_invariant fresh_ids
             (fun msg => negb (truthy (item_number msg)) || negb (truthy (item_message msg))));
      [apply push_message_fresh_ids|exact Hf].
  - intros [= <-]. unfold post_send_notifications.
    destruct (_ =? _)%nat; [exact Hf|]. destruct (negb _); [exact Hf|].
    match goal with |- fresh_ids (processMessageQueue ?s) =>
      destruct (processMessageQueue_pushed s) as [H1 H2];
      apply (fresh_ids_ext s _ H1 H2) end.
    apply (fold_push_invariant fresh_ids (fun _ => false));
      [apply push_message_fresh_ids|exact Hf].
  - intros [= <-]. unfold cron_tick. destruct (_ && _); [|exact Hf].
    destruct (processMessageQueue_pushed st) as [H1 H2].
    now apply (fresh_ids_ext st _ H1 H2).
  - unfold resume_send.
    destruct (drains st !! i) as [[m fn|m wake]|]; [|discriminate..].
    destruct result as [|error].
    + destruct (notify m sent None).
      * intros [= <-]. apply (fresh_ids_ext st); [|reflexivity|exact Hf].
        cbn. rewrite !pushed_app. cbn. now rewrite !app_nil_r.
      * intros [= <-].
        destruct (enter_catch_pushed i m e (emit [Outcome m sent] st)) as [H1 H2].
        apply (fresh_ids_ext _ _ H1 H2).
        apply (fresh_ids_ext st); [now apply emit_silent|reflexivity|exact Hf].
    + intros [= <-]. destruct (enter_catch_pushed i m error st) as [H1 H2].
      now apply (fresh_ids_ext st _ H1 H2).
  - unfold resume_delay.
    destruct (drains st !! i) as [[m fn|m wake]|]; [discriminate| |discriminate].
    destruct (wake <=? now st)%Z; [|discriminate].
    intros [= <-]. destruct (continue_loop_pushed i st) as [H1 H2].
    now apply (fresh_ids_ext st _ H1 H2).
  - destruct (0 <=? dt)%Z; [|discriminate]. intros [= <-]. exact Hf.
Qed.

(** C3.  Whatever the server is sent, as long as the queue is not cleared:
    the entries pushed so far are, in the order of their pushes, the
    entries shifted so far followed by the entries still queued; the calls
    of [client.sendMessage] are those of the shifted entries in the same
    order; and no entry is shifted twice. *)
Theorem fifo_order (evs : list Event) (st : State) :
  forallb (fun ev => negb (is_clear ev)) evs = true ->
  exec evs initial_state = Some st ->
  pushed (trace st) = (shifted (trace st) ++ messageQueue st)%list
  /\ sends (trace st) = omap send_of (shifted (trace st))
  /\ NoDup (map id (shifted (trace st))).
Proof.
  intros Hnc Hex.
  assert (Hfifo : fifo st).
  { revert Hex. apply (exec_invariant fifo).
    - intros ev s s' Hin. apply step_fifo.
      rewrite forallb_forall in Hnc. specialize (Hnc ev Hin).
      now destruct (is_clear ev).
    - now split. }
  assert (Hfresh : fresh_ids st).
  { revert Hex. apply (exec_invariant fresh_ids).
    - intros ev s s' _. apply step_fresh_ids.
    - split; constructor. }
  destruct Hfifo as [Hq Hs]. destruct Hfresh as [Hnd _].
  split; [exact Hq|]. split; [exact Hs|].
  rewrite Hq, map_app in Hnd. now apply NoDup_app in Hnd as (Hnd & _).
Qed.

(** The scenario of the specification: the three messages go out to
    919876543210, 919876543211 and 12345, in this order. *)
Lemma fifo_order_witness :
  let st := state_after (scenario_events
                           ++ [SendSettled 0 Resolved; Elapse 2000; TimerFired 0;
                               SendSettled 0 Resolved; Elapse 2000; TimerFired 0]) in
  map fst (sends (trace st))
  = ["919876543210@c.us"; "919876543211@c.us"; "12345@c.us"]
  /\ pushed (trace st) = (shifted (trace st) ++ messageQueue st)%list
  /\ sends (trace st) = omap send_of (shifted (trace st))
  /\ NoDup (map id (shifted (trace st))).
Proof.
  intros st. split; [vm_compute; reflexivity|].
  apply (fifo_order
           (scenario_events
              ++ [SendSettled 0 Resolved; Elapse 2000; TimerFired 0;
                  SendSettled 0 Resolved; Elapse 2000; TimerFired 0])).
  - vm_compute; reflexivity.
  - vm_compute; reflexivity.
Defined.

(** *** No entry of the server carries a callback *)


Lemma run_loop_no_callbacks (st st' : State) (ex : LoopExit) :
  no_callbacks st -> run_loop st = (st', ex) ->
  no_callbacks st' /\ (forall pc, ex = Suspended pc -> no_callback (held pc)).
Proof.
  intros [Hq Hd] Hr.
  apply run_loop_spec in Hr as (q' & acts & Hw & Hq' & _ & _ & _ & _ & Hdr & _).
  apply (while_loop_Forall no_callback _ _ Hq) in Hw as [Hq1 Hpc].
  split; [|exact Hpc]. unfold no_callbacks. now rewrite Hq', Hdr.
Qed.

Lemma continue_loop_no_callbacks (i : nat) (st : State) :
  no_callbacks st -> no_callbacks (continue_loop i st).
Proof.
  intros Hn. unfold continue_loop. destruct (run_loop st) as [st' ex] eqn:Hr.
  apply (run_loop_no_callbacks _ _ _ Hn) in Hr as [[Hq Hd] Hpc].
  destruct ex; unfold no_callbacks; cbn; (split; [exact Hq|]).
  - apply Forall_insert; [exact Hd|]. now apply Hpc.
  - now apply Forall_delete.
  - now apply Forall_delete.
Qed.

Lemma enter_catch_no_callbacks (i : nat) (m : QueuedMessage) (error : Exn) (st : State) :
  no_callbacks st -> no_callbacks (enter_catch i m error st).
Proof.
  intros Hn. unfold enter_catch. destruct (catch_block m error).
  - now apply continue_loop_no_callbacks.
  - destruct Hn as [Hq Hd]. split; [exact Hq|]. cbn. now apply Forall_delete.
Qed.

Lemma processMessageQueue_no_callbacks (st : State) :
  no_callbacks st -> no_callbacks (processMessageQueue st).
Proof.
  intros Hn. unfold processMessageQueue. destruct (_ || _); [exact Hn|].
  destruct (run_loop _) as [st' ex] eqn:Hr.
  apply run_loop_no_callbacks in Hr as [[Hq Hd] Hpc]; [|exact Hn].
  destruct ex; try (now split).
  split; [exact Hq|]. cbn. apply Forall_app. split; [exact Hd|].
  constructor; [now apply Hpc|constructor].
Qed.

Lemma push_message_no_callbacks (item : BulkItem) (st : State) :
  no_callbacks st -> no_callbacks (push_message item st).
Proof.
  intros [Hq Hd]. split; [|exact Hd]. cbn. apply Forall_app. split; [exact Hq|].
  now repeat constructor.
Qed.

Lemma step_no_callbacks (ev : Event) (st st' : State) :
  no_callbacks st -> step ev st = Some st' -> no_callbacks st'.
Proof.
  intros Hn. destruct ev; cbn [step]; try (intros [= <-]; exact Hn).
  - intros [= <-]. unfold post_send_bulk_messages.
    destruct (_ =? _)%nat; [exact Hn|]. destruct (negb _); [exact Hn|].
    apply processMessageQueue_no_callbacks.
    apply (fold_push_invariant no_callbacks
             (fun msg => negb (truthy (item_number msg)) || negb (truthy (item_message msg))));
      [apply push_message_no_callbacks|exact Hn].
  - intros [= <-]. unfold post_send_notifications.
    destruct (_ =? _)%nat; [exact Hn|]. destruct (negb _); [exact Hn|].
    apply processMessageQueue_no_callbacks.
    apply (fold_push_invariant no_callbacks (fun _ => false));
      [apply push_message_no_callbacks|exact Hn].
  - intros [= <-]. destruct Hn as [_ Hd]. split; [constructor|exact Hd].
  - intros [= <-]. unfold cron_tick.
    destruct (_ && _); [now apply processMessageQueue_no_callbacks|exact Hn].
  - unfold resume_send.
    destruct (drains st !! i) as [[m fn|m wake]|] eqn:Hi; [|discriminate..].
    assert (Hm : no_callback m).
    { destruct Hn as [_ Hd]. rewrite list.Forall_forall in Hd.
      apply (Hd (AwaitSend m fn)). now apply list_elem_of_lookup_2 in Hi. }
    destruct result as [|error].
    + destruct (notify m sent None).
      * intros [= <-]. destruct Hn as [Hq Hd]. split; [exact Hq|]. cbn.
        now apply Forall_insert.
      * intros [= <-]. now apply enter_catch_no_callbacks.
    + intros [= <-]. now apply enter_catch_no_callbacks.
  - unfold resume_delay.
    destruct (drains st !! i) as [[m fn|m wake]|]; [discriminate| |discriminate].
    destruct (wake <=? now st)%Z; [|discriminate].
    intros [= <-]. now apply continue_loop_no_callbacks.
  - destruct (0 <=? dt)%Z; [|discriminate]. intros [= <-]. exact Hn.
Qed.

Lemma reachable_no_callbacks (evs : list Event) (st : State) :
  exec evs initial_state = Some st -> no_callbacks st.
Proof.
  apply (exec_invariant no_callbacks).
  - intros ev s s' _. apply step_no_callbacks.
  - split; constructor.
Qed.

(** *** Progress of the drain *)

Lemma while_loop_cases (b : bool) (q : list QueuedMessage) :
  Forall no_callback q ->
  forall q' acts ex, while_loop b q = (q', acts, ex) ->
  (ex = Completed /\ ((b = false /\ q' = q /\ acts = []) \/ (b = true /\ q' = [])))
  \/ (exists m fn, ex = Suspended (AwaitSend m fn) /\ b = true /\ length q' < length q).
Proof.
  induction 1 as [|m q Hm Hq IH]; intros q' acts ex Hw; cbn [while_loop] in Hw.
  { inversion Hw; subst. left. split; [reflexivity|]. destruct b; auto. }
  destruct b; [|inversion Hw; subst; left; auto].
  destruct (call_formatPhoneNumber (number m)) as [fn|error].
  { inversion Hw; subst. right. exists m, fn. cbn. auto. }
  unfold catch_block, notify in Hw. rewrite Hm in Hw. cbn in Hw.
  destruct (while_loop true q) as [[q1 acts1] ex1].
  inversion Hw; subst.
  destruct (IH q' acts1 ex eq_refl) as [[-> [(Hf & _)|(_ & ->)]]|(m' & fn & -> & _ & Hlt)].
  - discriminate.
  - left. auto.
  - right. exists m', fn. split; [reflexivity|]. split; [reflexivity|]. cbn. lia.
Qed.

Lemma run_to_idle_idle (fuel : nat) (outcome : QueuedMessage -> SendResult) (st : State) :
  drains st = [] -> run_to_idle fuel outcome st = Some st.
Proof. intros Hd. destruct fuel; cbn; [reflexivity|]. now rewrite Hd. Qed.

Lemma run_to_idle_step (fuel : nat) (outcome : QueuedMessage -> SendResult)
    (st st1 : State) (pc : DrainPc) :
  drains st = [pc] -> exec (resume_events outcome st pc) st = Some st1 ->
  run_to_idle (S fuel) outcome st = run_to_idle fuel outcome st1.
Proof.
  intros Hd Hex. cbn [run_to_idle]. rewrite Hd.
  destruct pc as [m fn|m wake]; cbn [resume_events] in Hex.
  - cbn [exec] in Hex. destruct (step _ st) as [s|]; [|discriminate].
    injection Hex as ->. reflexivity.
  - rewrite Hex. reflexivity.
Qed.

(** What the loop leaves behind when the only activation goes round it:
    the entries shifted so far and the queue, taken together, are as
    before. *)
Lemma continue_loop_cases (st : State) (pc : DrainPc) :
  drains st = [pc] -> no_callbacks st ->
  let st1 := continue_loop 0 st in
  (shifted (trace st1) ++ messageQueue st1 = shifted (trace st) ++ messageQueue st)%list
  /\ isClientReady st1 = isClientReady st /\ no_callbacks st1
  /\ ((drains st1 = [] /\ isProcessingQueue st1 = false
       /\ ((isClientReady st = false /\ messageQueue st1 = messageQueue st
            /\ trace st1 = trace st)
           \/ (isClientReady st = true /\ messageQueue st1 = [])))
      \/ (exists m fn, drains st1 = [AwaitSend m fn] /\ isClientReady st = true
          /\ length (messageQueue st1) < length (messageQueue st))).
Proof.
  intros Hd Hn. pose proof (continue_loop_no_callbacks 0 st Hn) as Hn1.
  cbv zeta. revert Hn1. unfold continue_loop.
  destruct (run_loop st) as [st' ex] eqn:Hr. intros Hn1.
  apply run_loop_spec in Hr as (q' & acts & Hw & Hq' & Htr & Hf & Hrd & _ & Hdr & _).
  pose proof (while_loop_actions (now st) _ _ _ _ _ Hw) as (Hsh & _). cbv zeta in Hsh.
  destruct Hn as [Hnq _].
  assert (Hcons : (shifted (trace st') ++ messageQueue st'
                   = shifted (trace st) ++ messageQueue st)%list).
  { rewrite Htr, Hq', shifted_app, <- app_assoc. now rewrite Hsh. }
  destruct (while_loop_cases _ _ Hnq _ _ _ Hw)
    as [[-> [(Hb & -> & ->)|(Hb & ->)]]|(m & fn & -> & Hb & Hlt)].
  - split; [exact Hcons|]. split; [exact Hrd|]. split; [exact Hn1|]. left. cbn.
    rewrite Hdr, Hd. repeat split; [exact Hf|]. left. repeat split; auto.
    rewrite Htr. cbn. apply app_nil_r.
  - split; [exact Hcons|]. split; [exact Hrd|]. split; [exact Hn1|]. left. cbn.
    rewrite Hdr, Hd. repeat split; [exact Hf|]. right. auto.
  - split; [exact Hcons|]. split; [exact Hrd|]. split; [exact Hn1|]. right.
    exists m, fn. cbn. rewrite Hdr, Hd. repeat split; [exact Hb|]. now rewrite Hq'.
Qed.

Lemma continue_loop_trace (i : nat) (st : State) :
  exists tr, trace (continue_loop i st) = (trace st ++ tr)%list.
Proof.
  unfold continue_loop. destruct (run_loop st) as [st' ex] eqn:Hr.
  apply run_loop_spec in Hr as (q' & acts & _ & _ & Htr & _).
  exists (map (fun a => (now st, a)) acts). now destruct ex.
Qed.

(** One resumption of the only activation, in a server without callbacks:
    it is always possible; the outcome of a pending send is reported; and
    the activation then waits for its pacing timer, or has left the loop,
    or waits for the send of a later entry. *)
Lemma resume_cases (outcome : QueuedMessage -> SendResult) (st : State) (pc : DrainPc) :
  drains st = [pc] -> no_callbacks st ->
  exists st1,
    exec (resume_events outcome st pc) st = Some st1
    /\ (shifted (trace st1) ++ messageQueue st1
        = shifted (trace st) ++ messageQueue st)%list
    /\ isClientReady st1 = isClientReady st /\ no_callbacks st1
    /\ (exists tr, trace st1 = (trace st ++ tr)%list)
    /\ (forall m fn, pc = AwaitSend m fn ->
          In (now st, Outcome m (status_of (outcome m))) (trace st1))
    /\ ((exists m fn, pc = AwaitSend m fn /\ outcome m = Resolved
           /\ drains st1 = [AwaitDelay m (now st + pacing_delay)]
           /\ messageQueue st1 = messageQueue st)
        \/ (drains st1 = [] /\ isProcessingQueue st1 = false
            /\ ((isClientReady st = false /\ messageQueue st1 = messageQueue st)
                \/ (isClientReady st = true /\ messageQueue st1 = [])))
        \/ (exists m fn, drains st1 = [AwaitSend m fn] /\ isClientReady st = true
            /\ length (messageQueue st1) < length (messageQueue st))).
Proof.
  intros Hd Hn. destruct pc as [m fn|m wake]; cbn [resume_events exec step].
  - assert (Hm : no_callback m).
    { destruct Hn as [_ Hpc]. rewrite Hd in Hpc. now inversion Hpc. }
    unfold resume_send. rewrite Hd. cbn [lookup list_lookup].
    unfold notify. rewrite Hm. cbn.
    destruct (outcome m) as [|error] eqn:Hout.
    + eexists. split; [reflexivity|]. cbn.
      rewrite !shifted_app. cbn. rewrite !app_nil_r.
      split; [reflexivity|]. split; [reflexivity|]. split.
      { destruct Hn as [Hq Hpc]. split; [exact Hq|]. cbn. rewrite Hd. cbn.
        repeat constructor. exact Hm. }
      split.
      { eexists. rewrite <- app_assoc. reflexivity. }
      split.
      { intros m' fn' [= <- <-]. rewrite Hout. cbn.
        apply in_or_app. left. apply in_or_app. right. now left. }
      left. exists m, fn. rewrite Hd. auto.
    + unfold enter_catch, catch_block, notify. rewrite Hm. cbn.
      set (st0 := emit [Outcome m failed] st).
      assert (Hd0 : drains st0 = [AwaitSend m fn]) by exact Hd.
      assert (Hn0 : no_callbacks st0) by exact Hn.
      destruct (continue_loop_cases st0 _ Hd0 Hn0) as (Hc & Hr & Hn1 & Hcase).
      destruct (continue_loop_trace 0 st0) as [tr Htr].
      exists (continue_loop 0 st0). split; [reflexivity|].
      assert (Hsh0 : shifted (trace st0) = shifted (trace st)).
      { now apply (emit_silent [Outcome m failed] st). }
      rewrite Hsh0 in Hc. split; [exact Hc|]. split; [exact Hr|].
      split; [exact Hn1|]. split.
      { eexists. rewrite Htr. cbn. rewrite <- app_assoc. reflexivity. }
      split.
      { intros m' fn' [= <- <-]. rewrite Hout, Htr. cbn.
        apply in_or_app. left. apply in_or_app. right. now left. }
      right. loop_exit_cases Hcase.
  - set (d := Z.max 0 (wake - now st)).
    destruct (Z.leb_spec 0 d) as [_|Hneg]; [|unfold d in Hneg; lia].
    set (st0 := set_now (now st + d) st).
    unfold resume_delay.
    assert (Hd0 : drains st0 = [AwaitDelay m wake]) by exact Hd.
    rewrite Hd0. cbn [lookup list_lookup].
    destruct (Z.leb_spec wake (now st0)) as [_|Hlate];
      [|unfold st0, d in Hlate; cbn in Hlate; lia].
    assert (Hn0 : no_callbacks st0) by exact Hn.
    destruct (continue_loop_cases st0 _ Hd0 Hn0) as (Hc & Hr & Hn1 & Hcase).
    exists (continue_loop 0 st0). split; [reflexivity|].
    split; [exact Hc|]. split; [exact Hr|]. split; [exact Hn1|].
    split; [exact (continue_loop_trace 0 st0)|].
    split; [discriminate|].
    right. loop_exit_cases Hcase.
Qed.


(** Once the session is not ready, the activation ends at the next loop
    test and leaves the queue as it is. *)
Lemma drain_stops (outcome : QueuedMessage -> SendResult) (st : State) (pc : DrainPc)
    (fuel : nat) :
  pc_fuel pc <= fuel ->
  isClientReady st = false -> no_callbacks st -> drains st = [pc] ->
  exists st',
    run_to_idle fuel outcome st = Some st'
    /\ drains st' = [] /\ isProcessingQueue st' = false
    /\ messageQueue st' = messageQueue st
    /\ shifted (trace st') = shifted (trace st)
    /\ isClientReady st' = false /\ no_callbacks st'
    /\ (forall m fn, pc = AwaitSend m fn ->
          In (now st, Outcome m (status_of (outcome m))) (trace st')).
Proof.
  intros Hfuel Hready Hn Hd.
  destruct fuel as [|fuel]; [destruct pc; cbn in Hfuel; lia|].
  destruct (resume_cases outcome st pc Hd Hn)
    as (st1 & Hex & Hcons & Hr1 & Hn1 & _ & Hout & Hcase).
  rewrite (run_to_idle_step fuel outcome st st1 pc Hd Hex).
  rewrite Hready in Hr1.
  destruct Hcase as [(m & fn & -> & _ & Hd1 & Hq1)
                    |[(Hd1 & Hf1 & [(_ & Hq1)|(Ht & _)])
                     |(m & fn & _ & Ht & _)]]; try congruence.
  - destruct fuel as [|fuel]; [cbn in Hfuel; lia|].
    destruct (resume_cases outcome st1 _ Hd1 Hn1)
      as (st2 & Hex2 & Hcons2 & Hr2 & Hn2 & Htr & _ & Hcase2).
    rewrite (run_to_idle_step fuel outcome st1 st2 _ Hd1 Hex2).
    rewrite Hr1 in Hr2.
    destruct Hcase2 as [(m' & fn' & [=] & _)
                       |[(Hd2 & Hf2 & [(_ & Hq2)|(Ht & _)])
                        |(m' & fn' & _ & Ht & _)]]; try congruence.
    exists st2. rewrite (run_to_idle_idle _ _ _ Hd2).
    rewrite Hq2, Hq1 in Hcons2. rewrite Hq1 in Hcons.
    apply app_inv_tail in Hcons. rewrite Hcons in Hcons2.
    apply app_inv_tail in Hcons2.
    split; [reflexivity|]. split; [exact Hd2|]. split; [exact Hf2|].
    split; [congruence|]. split; [exact Hcons2|]. split; [exact Hr2|].
    split; [exact Hn2|].
    intros m' fn' Heq. destruct Htr as [tr ->]. apply in_or_app. left.
    now apply (Hout m' fn').
  - exists st1. rewrite (run_to_idle_idle _ _ _ Hd1).
    rewrite Hq1 in Hcons. apply app_inv_tail in Hcons.
    split; [reflexivity|]. split; [exact Hd1|]. split; [exact Hf1|].
    split; [exact Hq1|]. split; [exact Hcons|]. split; [exact Hr1|].
    split; [exact Hn1|exact Hout].
Qed.

Lemma cron_tick_processMessageQueue (st : State) : cron_tick st = processMessageQueue st.
Proof.
  unfold cron_tick, processMessageQueue.
  destruct (isProcessingQueue st), (length (messageQueue st) =? 0)%nat,
    (isClientReady st); reflexivity.
Qed.

(** A call of the drain procedure in a server that is idle and ready. *)
Lemma processMessageQueue_cases (st : State) :
  drains st = [] -> isProcessingQueue st = false -> isClientReady st = true ->
  no_callbacks st ->
  let st1 := processMessageQueue st in
  (shifted (trace st1) ++ messageQueue st1 = shifted (trace st) ++ messageQueue st)%list
  /\ isClientReady st1 = true /\ no_callbacks st1
  /\ ((drains st1 = [] /\ isProcessingQueue st1 = false /\ messageQueue st1 = [])
      \/ (exists m fn, drains st1 = [AwaitSend m fn]
          /\ length (messageQueue st1) < length (messageQueue st))).
Proof.
  intros Hd Hf Hr Hn. pose proof (processMessageQueue_no_callbacks st Hn) as Hn1.
  cbv zeta. revert Hn1. unfold processMessageQueue. rewrite Hf, Hr. cbn [orb negb].
  rewrite orb_false_r.
  destruct (Nat.eqb_spec (length (messageQueue st)) 0) as [Hq|_].
  { apply length_zero_iff_nil in Hq. intros Hn1. split; [reflexivity|].
    split; [exact Hr|]. split; [exact Hn1|]. left. auto. }
  destruct (run_loop _) as [st' ex] eqn:Hrun. intros Hn1.
  apply run_loop_spec in Hrun
    as (q' & acts & Hw & Hq' & Htr & Hf' & Hrd & _ & Hdr & _).
  cbn in Hw, Htr, Hf', Hrd, Hdr. rewrite Hr in Hw, Hrd.
  pose proof (while_loop_actions (now st) _ _ _ _ _ Hw) as (Hsh & _). cbv zeta in Hsh.
  destruct Hn as [Hnq _].
  assert (Hcons : (shifted (trace st') ++ messageQueue st'
                   = shifted (trace st) ++ messageQueue st)%list).
  { rewrite Htr, Hq', shifted_app, <- app_assoc. now rewrite Hsh. }
  destruct (while_loop_cases _ _ Hnq _ _ _ Hw)
    as [[-> [(Hb & _)|(_ & ->)]]|(m & fn & -> & _ & Hlt)]; [discriminate| |].
  - split; [exact Hcons|]. split; [exact Hrd|]. split; [exact Hn1|].
    left. rewrite Hdr, Hd. auto.
  - split; [exact Hcons|]. split; [exact Hrd|]. split; [exact Hn1|].
    right. exists m, fn. cbn. rewrite Hdr, Hd, Hq'. auto.
Qed.


(** ** Loss of readiness during a drain *)


(** *** The trace only grows *)

Lemma trace_grows_refl (st : State) : trace_grows st st.
Proof. exists []. now rewrite app_nil_r. Qed.

Lemma trace_grows_trans (st1 st2 st3 : State) :
  trace_grows st1 st2 -> trace_grows st2 st3 -> trace_grows st1 st3.
Proof.
  intros [tr1 H1] [tr2 H2]. exists (tr1 ++ tr2)%list. now rewrite H2, H1, app_assoc.
Qed.

Lemma trace_grows_ext (st1 st2 st2' : State) :
  trace st2' = trace st2 -> trace_grows st1 st2 -> trace_grows st1 st2'.
Proof. intros E [tr H]. exists tr. congruence. Qed.

Lemma emit_grows (acts : list Action) (st : State) : trace_grows st (emit acts st).
Proof. eexists. reflexivity. Qed.

Lemma run_loop_grows (st st' : State) (ex : LoopExit) :
  run_loop st = (st', ex) -> trace_grows st st'.
Proof.
  intros Hr. apply run_loop_spec in Hr as (q' & acts & _ & _ & Htr & _).
  eexists. exact Htr.
Qed.

Lemma processMessageQueue_grows (st : State) : trace_grows st (processMessageQueue st).
Proof.
  unfold processMessageQueue. destruct (_ || _); [apply trace_grows_refl|].
  destruct (run_loop _) as [st' ex] eqn:Hr. apply run_loop_grows in Hr.
  now destruct ex.
Qed.

Lemma enter_catch_grows (i : nat) (m : QueuedMessage) (error : Exn) (st : State) :
  trace_grows st (enter_catch i m error st).
Proof.
  unfold enter_catch. destruct (catch_block m error).
  - apply (trace_grows_trans _ (emit [Outcome m failed] st)); [apply emit_grows|].
    apply continue_loop_trace.
  - apply (trace_grows_trans _ (emit [Outcome m failed] st)); [apply emit_grows|].
    eexists. reflexivity.
Qed.

Lemma fold_push_grows (f : BulkItem -> bool) (items : list BulkItem) (st : State) :
  trace_grows st
    (fold_left (fun st msg => if f msg then st else push_message msg st) items st).
Proof.
  revert st. induction items as [|item items IH]; intros st; [apply trace_grows_refl|].
  cbn [fold_left]. destruct (f item); [apply IH|].
  apply (trace_grows_trans _ (push_message item st)); [|apply IH].
  eexists. reflexivity.
Qed.

Lemma step_grows (ev : Event) (st st' : State) :
  step ev st = Some st' -> trace_grows st st'.
Proof.
  destruct ev; cbn [step];
    try (intros [= <-]; exists []; cbn; symmetry; apply app_nil_r).
  - intros [= <-]. unfold post_send_bulk_messages.
    destruct (_ =? _)%nat; [apply trace_grows_refl|].
    destruct (negb _); [apply trace_grows_refl|].
    eapply trace_grows_trans; [|apply processMessageQueue_grows].
    apply (fold_push_grows
             (fun msg => negb (truthy (item_number msg)) || negb (truthy (item_message msg)))).
  - intros [= <-]. unfold post_send_notifications.
    destruct (_ =? _)%nat; [apply trace_grows_refl|].
    destruct (negb _); [apply trace_grows_refl|].
    eapply trace_grows_trans; [|apply processMessageQueue_grows].
    apply (fold_push_grows (fun _ => false)).
  - intros [= <-]. rewrite cron_tick_processMessageQueue. apply processMessageQueue_grows.
  - unfold resume_send.
    destruct (drains st !! i) as [[m fn|m wake]|]; [|discriminate..].
    destruct result as [|error].
    + destruct (notify m sent None).
      * intros [= <-]. eexists. cbn. rewrite <- app_assoc. reflexivity.
      * intros [= <-].
        apply (trace_grows_trans _ (emit [Outcome m sent] st)); [apply emit_grows|].
        apply enter_catch_grows.
    + intros [= <-]. apply enter_catch_grows.
  - unfold resume_delay.
    destruct (drains st !! i) as [[m fn|m wake]|]; [discriminate| |discriminate].
    destruct (wake <=? now st)%Z; [|discriminate].
    intros [= <-]. apply continue_loop_trace.
  - destruct (0 <=? dt)%Z; [|discriminate]. intros [= <-].
    exists []. cbn. symmetry. apply app_nil_r.
Qed.

(** *** What is in flight has been sent *)

Lemma while_loop_suspended_sent (t : Z) (b : bool) (q : list QueuedMessage) :
  forall q' acts pc, while_loop b q = (q', acts, Suspended pc) ->
  exists c, send_of (held pc) = Some c /\ In c (sends (map (fun a => (t, a)) acts)).
Proof.
  induction q as [|m q IH]; intros q' acts pc Hw; cbn [while_loop] in Hw.
  { discriminate. }
  destruct b; [|discriminate].
  destruct (call_formatPhoneNumber (number m)) as [fn|error] eqn:Hcall.
  - inversion Hw; subst. cbn. unfold send_of.
    destruct (number m); try discriminate. injection Hcall as <-.
    eexists. split; [reflexivity|]. now left.
  - destruct (catch_block m error); [|discriminate].
    destruct (while_loop true q) as [[q1 acts1] ex1].
    inversion Hw; subst. destruct (IH _ _ _ eq_refl) as (c & Hc & Hin).
    exists c. split; [exact Hc|]. exact Hin.
Qed.

Lemma sent_in_flight_grows (st st' : State) :
  drains st' = drains st -> trace_grows st st' -> sent_in_flight st -> sent_in_flight st'.
Proof.
  intros Hd [tr Htr]. unfold sent_in_flight. rewrite Hd, Htr.
  intros Hs. eapply Forall_impl; [exact Hs|]. cbn. intros pc (c & Hc & Hin). exists c. split; [exact Hc|].
  rewrite sends_app. apply in_or_app. now left.
Qed.

Lemma sent_in_flight_delete (i : nat) (st : State) :
  sent_in_flight st -> sent_in_flight (set_drains (delete i (drains st)) st).
Proof. intros Hs. now apply Forall_delete. Qed.

Lemma run_loop_sent_in_flight (st st' : State) (ex : LoopExit) :
  sent_in_flight st -> run_loop st = (st', ex) ->
  sent_in_flight st'
  /\ (forall pc, ex = Suspended pc ->
        exists c, send_of (held pc) = Some c /\ In c (sends (trace st'))).
Proof.
  intros Hs Hr. pose proof (run_loop_grows _ _ _ Hr) as Hg.
  apply run_loop_spec in Hr as (q' & acts & Hw & _ & Htr & _ & _ & _ & Hdr & _).
  split; [now apply (sent_in_flight_grows st)|].
  intros pc ->. destruct (while_loop_suspended_sent (now st) _ _ _ _ _ Hw) as (c & Hc & Hin).
  exists c. split; [exact Hc|]. rewrite Htr, sends_app. apply in_or_app. now right.
Qed.

Lemma continue_loop_sent_in_flight (i : nat) (st : State) :
  sent_in_flight st -> sent_in_flight (continue_loop i st).
Proof.
  intros Hs. unfold continue_loop. destruct (run_loop st) as [st' ex] eqn:Hr.
  apply (run_loop_sent_in_flight _ _ _ Hs) in Hr as [Hs' Hpc].
  destruct ex; unfold sent_in_flight; cbn.
  - apply Forall_insert; [exact Hs'|]. now apply Hpc.
  - now apply Forall_delete.
  - now apply Forall_delete.
Qed.

Lemma enter_catch_sent_in_flight (i : nat) (m : QueuedMessage) (error : Exn) (st : State) :
  sent_in_flight st -> sent_in_flight (enter_catch i m error st).
Proof.
  intros Hs. unfold enter_catch.
  assert (Hs0 : sent_in_flight (emit [Outcome m failed] st)).
  { apply (sent_in_flight_grows st); [reflexivity|apply emit_grows|exact Hs]. }
  destruct (catch_block m error).
  - now apply continue_loop_sent_in_flight.
  - apply (sent_in_flight_delete i (emit [Uncaught e] (emit [Outcome m failed] st))).
    apply (sent_in_flight_grows (emit [Outcome m failed] st));
      [reflexivity|apply emit_grows|exact Hs0].
Qed.

Lemma processMessageQueue_sent_in_flight (st : State) :
  sent_in_flight st -> sent_in_flight (processMessageQueue st).
Proof.
  intros Hs. unfold processMessageQueue. destruct (_ || _); [exact Hs|].
  destruct (run_loop _) as [st' ex] eqn:Hr.
  apply run_loop_sent_in_flight in Hr as [Hs' Hpc]; [|exact Hs].
  destruct ex; try exact Hs'.
  unfold sent_in_flight. cbn. apply Forall_app. split; [exact Hs'|].
  constructor; [now apply Hpc|constructor].
Qed.

Lemma step_sent_in_flight (ev : Event) (st st' : State) :
  sent_in_flight st -> step ev st = Some st' -> sent_in_flight st'.
Proof.
  intros Hs. destruct ev; cbn [step]; try (intros [= <-]; exact Hs).
  - intros [= <-]. unfold post_send_bulk_messages.
    destruct (_ =? _)%nat; [exact Hs|]. destruct (negb _); [exact Hs|].
    apply processMessageQueue_sent_in_flight.
    set (f := fun msg : BulkItem =>
                negb (truthy (item_number msg)) || negb (truthy (item_message msg))).
    apply (sent_in_flight_grows st);
      [apply (fold_push_frame f)|apply (fold_push_grows f)|exact Hs].
  - intros [= <-]. unfold post_send_notifications.
    destruct (_ =? _)%nat; [exact Hs|]. destruct (negb _); [exact Hs|].
    apply processMessageQueue_sent_in_flight.
    apply (sent_in_flight_grows st);
      [apply (fold_push_frame (fun _ => false))
      |apply (fold_push_grows (fun _ => false))|exact Hs].
  - intros [= <-]. rewrite cron_tick_processMessageQueue.
    now apply processMessageQueue_sent_in_flight.
  - unfold resume_send.
    destruct (drains st !! i) as [[m fn|m wake]|] eqn:Hi; [|discriminate..].
    assert (Hm : exists c, send_of m = Some c /\ In c (sends (trace st))).
    { unfold sent_in_flight in Hs. rewrite list.Forall_forall in Hs.
      apply (Hs (AwaitSend m fn)). now apply list_elem_of_lookup_2 in Hi. }
    destruct result as [|error].
    + destruct (notify m sent None).
      * intros [= <-].
        set (st1 := emit [SetTimeout pacing_delay] (emit [Outcome m sent] st)).
        assert (Hs1 : sent_in_flight st1).
        { apply (sent_in_flight_grows st); [reflexivity| |exact Hs].
          eexists. cbn. rewrite <- app_assoc. reflexivity. }
        unfold sent_in_flight. cbn. apply Forall_insert; [exact Hs1|].
        destruct Hm as (c & Hc & Hin). exists c. split; [exact Hc|].
        rewrite !sends_app. apply in_or_app. left. apply in_or_app. now left.
      * intros [= <-]. apply enter_catch_sent_in_flight.
        apply (sent_in_flight_grows st); [reflexivity|apply emit_grows|exact Hs].
    + intros [= <-]. now apply enter_catch_sent_in_flight.
  - unfold resume_delay.
    destruct (drains st !! i) as [[m fn|m wake]|]; [discriminate| |discriminate].
    destruct (wake <=? now st)%Z; [|discriminate].
    intros [= <-]. now apply continue_loop_sent_in_flight.
  - destruct (0 <=? dt)%Z; [|discriminate]. intros [= <-]. exact Hs.
Qed.

Lemma reachable_sent_in_flight (evs : list Event) (st : State) :
  exec evs initial_state = Some st -> sent_in_flight st.
Proof.
  apply (exec_invariant sent_in_flight).
  - intros ev s s' _. apply step_sent_in_flight.
  - constructor.
Qed.


(** ** Clearing the queue during a drain *)

(** C10.  In a state the server can reach with a drain under way, a request
    that clears the queue leaves the entry in flight where it is: it has
    been handed to [client.sendMessage] and, when the send settles, its
    outcome is reported.  Only the queued entries are removed: the trace of
    what was pushed, shifted and sent is untouched.  With no other request
    in between, the drain finds the queue empty at its next loop test,
    shifts nothing more and ends with the flag cleared.  The state after
    each event is a function of the state before. *)
Theorem clear_queue_mid_drain
    (evs : list Event) (st : State) (pc : DrainPc)
    (outcome : QueuedMessage -> SendResult) :
  exec evs initial_state = Some st ->
  drains st = [pc] ->
  exists st1 st2,
    step HttpClearQueue st = Some st1
    /\ drains st1 = [pc] /\ messageQueue st1 = [] /\ trace st1 = trace st
    /\ (exists c, send_of (held pc) = Some c /\ In c (sends (trace st1)))
    /\ run_to_idle 2 outcome st1 = Some st2
    /\ (forall m fn, pc = AwaitSend m fn ->
          In (now st, Outcome m (status_of (outcome m))) (trace st2))
    /\ drains st2 = [] /\ isProcessingQueue st2 = false /\ messageQueue st2 = []
    /\ shifted (trace st2) = shifted (trace st)
    /\ (forall evs' s s', exec evs' st = Some s -> exec evs' st = Some s' -> s = s').
Proof.
  intros Hex Hd.
  pose proof (reachable_no_callbacks evs st Hex) as [_ Hnd].
  pose proof (reachable_sent_in_flight evs st Hex) as Hsent.
  set (st1 := post_clear_queue st).
  assert (Hn1 : no_callbacks st1) by (split; [constructor|exact Hnd]).
  assert (Hd1 : drains st1 = [pc]) by exact Hd.
  assert (Hfin : exists st2,
             run_to_idle 2 outcome st1 = Some st2
             /\ (forall m fn, pc = AwaitSend m fn ->
                   In (now st, Outcome m (status_of (outcome m))) (trace st2))
             /\ drains st2 = [] /\ isProcessingQueue st2 = false
             /\ messageQueue st2 = [] /\ shifted (trace st2) = shifted (trace st)).
  { destruct (isClientReady st1) eqn:Hr.
    - (* the session is ready: the loop ends on the empty queue *)
      destruct (resume_cases outcome st1 pc Hd1 Hn1)
        as (s1 & Hex1 & Hc1 & Hr1 & Hns1 & Htr1 & Hout1 & Hcase1).
      rewrite (run_to_idle_step 1 outcome st1 s1 pc Hd1 Hex1).
      cbn [messageQueue st1 post_clear_queue set_messageQueue] in Hc1, Hcase1.
      rewrite app_nil_r in Hc1.
      destruct Hcase1 as [(m & fn & -> & _ & Hds1 & Hqs1)
                         |[(Hds1 & Hfs1 & [(Hnr & _)|(_ & Hqs1)])
                          |(m & fn & _ & _ & Hlt)]];
        [|congruence| |cbn in Hlt; lia].
      + destruct (resume_cases outcome s1 _ Hds1 Hns1)
          as (s2 & Hex2 & Hc2 & Hr2 & Hns2 & Htr2 & _ & Hcase2).
        rewrite (run_to_idle_step 0 outcome s1 s2 _ Hds1 Hex2). cbn [run_to_idle].
        rewrite Hqs1 in Hc1, Hc2, Hcase2. rewrite app_nil_r in Hc1.
        rewrite Hc1, app_nil_r in Hc2.
        destruct Hcase2 as [(m' & fn' & [=] & _)
                           |[(Hds2 & Hfs2 & [(Hnr & _)|(_ & Hqs2)])
                            |(m' & fn' & _ & _ & Hlt)]];
          [congruence| |cbn in Hlt; lia].
        exists s2. split; [reflexivity|]. split.
        { intros m' fn' Heq. destruct Htr2 as [tr ->]. apply in_or_app. left.
          now apply (Hout1 m' fn'). }
        rewrite Hqs2, app_nil_r in Hc2. repeat split; assumption.
      + exists s1. rewrite (run_to_idle_idle _ _ _ Hds1).
        rewrite Hqs1, app_nil_r in Hc1.
        split; [reflexivity|]. split; [exact Hout1|]. repeat split; assumption.
    - (* the session is not ready: the loop ends on its readiness test *)
      destruct (drain_stops outcome st1 pc 2)
        as (s2 & Hrun & Hds2 & Hfs2 & Hqs2 & Hss2 & _ & _ & Hout2); auto.
      { destruct pc; cbn; lia. }
      exists s2. split; [exact Hrun|]. split; [exact Hout2|].
      repeat split; assumption. }
  destruct Hfin as (st2 & Hrun & Hout & Hd2 & Hf2 & Hq2 & Hs2).
  exists st1, st2.
  split; [reflexivity|]. split; [exact Hd1|]. split; [reflexivity|].
  split; [reflexivity|]. split.
  { unfold sent_in_flight in Hsent. rewrite Hd in Hsent. now inversion Hsent. }
  split; [exact Hrun|]. split; [exact Hout|]. split; [exact Hd2|].
  split; [exact Hf2|]. split; [exact Hq2|]. split; [exact Hs2|].
  intros evs' s s' H1 H2. congruence.
Qed.

Lemma clear_queue_mid_drain_witness :
  let st := state_after scenario_events in
  exists st2,
    exec [HttpClearQueue; SendSettled 0 Resolved; Elapse 2000; TimerFired 0] st
      = Some st2
    /\ In ("919876543210@c.us", JString "one") (sends (trace st))
    /\ drains st2 = [] /\ isProcessingQueue st2 = false /\ messageQueue st2 = []
    /\ map id (shifted (trace st2)) = [0].
Proof.
  intros st.
  destruct (clear_queue_mid_drain scenario_events st
              (AwaitSend {| id := 0; number := JString "9876543210";
                            message := JString "one"; statusCallback := None |}
                         "919876543210")
              (fun _ => Resolved))
    as (st1 & st2 & Hstep & _ & _ & Htr1 & (c & Hc & Hin) & Hrun & _
        & Hd2 & Hf2 & Hq2 & Hs2 & _).
  - vm_compute; reflexivity.
  - vm_compute; reflexivity.
  - exists st2. injection Hstep as <-.
    split.
    { revert Hrun. vm_compute. exact (fun H => H). }
    split.
    { vm_compute in Hc. injection Hc as <-. revert Hin. vm_compute. exact (fun H => H). }
    split; [exact Hd2|]. split; [exact Hf2|]. split; [exact Hq2|].
    rewrite Hs2. vm_compute; reflexivity.
Defined.

(** ** Pacing *)






(** ** The flag after an exception *)


(** ** Dates and durations in the templates *)





Section Templates.
Context `{JsRuntime}.



(** C8.  An event that gives the duration under both spellings,
    [totalDays: 1] and [total_days: 3]: the test of line 478 passes on the
    second, the line shows the first, "1 days". *)
Theorem duration_line_shows_one_day (ev : event.t) :
  event.totalDays ev = JNumber 1 -> event.total_days ev = JNumber 3 ->
  event_duration_shown ev = true
  /\ event_duration_value ev = JNumber 1
  /\ event_duration_line ev = "*Event Duration:* 1 days" ++ nl.
Proof.
  intros H1 H3.
  unfold event_duration_line, event_duration_shown, event_duration_value.
  rewrite H1, H3. repeat split.
Qed.


End Templates.


Lemma duration_line_shows_one_day_witness :
  let ev :=
    {| event.id := JNumber 7; event.role := JUndefined; event.title := JString "Gala";
       event.eventType := JUndefined; event.event_type := JUndefined;
       event.eventDate := JString "2024-03-05"; event.event_date := JUndefined;
       event.venue := JUndefined; event.clientName := JUndefined;
       event.client_name := JUndefined; event.totalDays := JNumber 1;
       event.total_days := JNumber 3; event.description := JUndefined |} in
  @event_duration_line Sample.runtime ev = "*Event Duration:* 1 days" ++ nl.
Proof.
  intros ev.
  apply (@duration_line_shows_one_day Sample.runtime ev); reflexivity.
Defined.

(** The message for an event that gives both spellings, in full. *)
Example formatEventMessage_both_spellings :
  @formatEventMessage Sample.runtime
    {| event.id := JNumber 7; event.role := JUndefined; event.title := JString "Gala";
       event.eventType := JUndefined; event.event_type := JUndefined;
       event.eventDate := JString "2024-03-05"; event.event_date := JUndefined;
       event.venue := JUndefined; event.clientName := JUndefined;
       event.client_name := JUndefined; event.totalDays := JNumber 1;
       event.total_days := JNumber 3; event.description := JUndefined |}
    {| staff.id := JNumber 1; staff.full_name := JString "Asha";
       staff.role := JString "usher"; staff.mobile_number := JString "9876543210" |}
  = Normal ("*EVENT ASSIGNMENT*" ++ nl ++ nl
            ++ "Hello *Asha*," ++ nl ++ nl
            ++ "You have been assigned as *USHER* for the following event:" ++ nl ++ nl
            ++ "*Event Title:* Gala" ++ nl
            ++ "*Event Type:* Not specified" ++ nl
            ++ "*Event Date:* Tuesday, 5 March 2024" ++ nl
            ++ "*Event Duration:* 1 days" ++ nl
            ++ nl ++ "Thank you for your professionalism and commitment.").
Proof. vm_compute; reflexivity. Qed.

(** * Further properties of the code *)

(** ** The account of the queue over every event *)

Lemma account_ext
    (P : list QueuedMessage -> list QueuedMessage -> list (string * JsValue)
         -> list QueuedMessage -> Prop) (st st' : State) :
  trace st' = trace st -> messageQueue st' = messageQueue st ->
  account P st -> account P st'.
Proof. unfold account. now intros -> ->. Qed.

Section Account.
Variable P : list QueuedMessage -> list QueuedMessage -> list (string * JsValue)
             -> list QueuedMessage -> Prop.
Hypothesis P_push : forall p s c q m, P p s c q -> P (p ++ [m])%list s c (q ++ [m])%list.
Hypothesis P_shift : forall p s c s' q',
  P p s c (s' ++ q')%list -> P p (s ++ s')%list (c ++ omap send_of s')%list q'.
Hypothesis P_clear : forall p s c q, P p s c q -> P p s c [].

Lemma run_loop_account (st st' : State) (ex : LoopExit) :
  account P st -> run_loop st = (st', ex) -> account P st'.
Proof.
  unfold account. intros HP Hr.
  apply run_loop_spec in Hr as (q' & acts & Hw & Hq' & Htr & _).
  apply (while_loop_actions (now st)) in Hw as (H1 & H2 & H3). cbv zeta in *.
  rewrite Htr, Hq', pushed_app, shifted_app, sends_app, H2, H3, app_nil_r.
  apply P_shift. now rewrite H1.
Qed.

Lemma emit_silent_account (acts : list Action) (st : State) :
  forallb silent acts = true -> account P st -> account P (emit acts st).
Proof.
  intros Hs. destruct (emit_silent acts st Hs) as (H1 & H2 & H3).
  unfold account. now rewrite H1, H2, H3.
Qed.

Lemma continue_loop_account (i : nat) (st : State) :
  account P st -> account P (continue_loop i st).
Proof.
  intros HP. unfold continue_loop. destruct (run_loop st) as [st' ex] eqn:Hr.
  apply (run_loop_account _ _ _ HP) in Hr. now destruct ex.
Qed.

Lemma enter_catch_account (i : nat) (m : QueuedMessage) (error : Exn) (st : State) :
  account P st -> account P (enter_catch i m error st).
Proof.
  intros HP. unfold enter_catch. destruct (catch_block m error).
  - apply continue_loop_account. now apply emit_silent_account.
  - apply (account_ext P (emit [Outcome m failed; Uncaught e] st)); [|reflexivity|].
    + unfold emit. cbn. now rewrite <- app_assoc.
    + now apply emit_silent_account.
Qed.

Lemma processMessageQueue_account (st : State) :
  account P st -> account P (processMessageQueue st).
Proof.
  intros HP. unfold processMessageQueue. destruct (_ || _); [exact HP|].
  destruct (run_loop _) as [st' ex] eqn:Hr.
  apply run_loop_account in Hr; [|exact HP]. now destruct ex.
Qed.

Lemma push_message_account (item : BulkItem) (st : State) :
  account P st -> account P (push_message item st).
Proof.
  unfold account, push_message, emit. cbn. intros HP.
  rewrite pushed_app, shifted_app, sends_app. cbn. rewrite !app_nil_r.
  now apply P_push.
Qed.

(** Whatever the event, a property that pushes, shifts and clearing keep is
    kept. *)
Lemma step_account (ev : Event) (st st' : State) :
  account P st -> step ev st = Some st' -> account P st'.
Proof.
  intros HP. destruct ev; cbn [step]; try (intros [= <-]; exact HP).
  - intros [= <-]. unfold post_send_bulk_messages.
    destruct (_ =? _)%nat; [exact HP|]. destruct (negb _); [exact HP|].
    apply processMessageQueue_account.
    apply (fold_push_invariant (account P)
             (fun msg => negb (truthy (item_number msg)) || negb (truthy (item_message msg))));
      [apply push_message_account|exact HP].
  - intros [= <-]. unfold post_send_notifications.
    destruct (_ =? _)%nat; [exact HP|]. destruct (negb _); [exact HP|].
    apply processMessageQueue_account.
    apply (fold_push_invariant (account P) (fun _ => false));
      [apply push_message_account|exact HP].
  - intros [= <-]. unfold account, post_clear_queue. cbn.
    now apply (P_clear _ _ _ (messageQueue st)).
  - intros [= <-]. rewrite cron_tick_processMessageQueue.
    now apply processMessageQueue_account.
  - unfold resume_send.
    destruct (drains st !! i) as [[m fn|m wake]|]; [|discriminate..].
    destruct result as [|error].
    + destruct (notify m sent None).
      * intros [= <-].
        apply (account_ext P (emit [Outcome m sent; SetTimeout pacing_delay] st));
          [|reflexivity|now apply emit_silent_account].
        unfold emit. cbn. now rewrite <- app_assoc.
      * intros [= <-]. apply enter_catch_account. now apply emit_silent_account.
    + intros [= <-]. now apply enter_catch_account.
  - unfold resume_delay.
    destruct (drains st !! i) as [[m fn|m wake]|]; [discriminate| |discriminate].
    destruct (wake <=? now st)%Z; [|discriminate].
    intros [= <-]. now apply continue_loop_account.
  - destruct (0 <=? dt)%Z; [|discriminate]. intros [= <-]. exact HP.
Qed.

Lemma reachable_account (evs : list Event) (st : State) :
  P [] [] [] [] -> exec evs initial_state = Some st -> account P st.
Proof.
  intros H0. apply (exec_invariant (account P)).
  - intros ev s s' _. apply step_account.
  - exact H0.
Qed.

End Account.

(** ** Nothing is sent that was not enqueued *)

(** X1.  In every state the server can reach, whatever the requests,
    clear-queue included: the entries shifted so far followed by the
    entries queued are, in this order, among the entries pushed (a
    subsequence of them); the calls of [client.sendMessage] are exactly
    those of the shifted entries with a string for a number, in order; and
    no entry occurs twice among the shifted and the queued ones. *)
Theorem queue_never_invents (evs : list Event) (st : State) :
  exec evs initial_state = Some st ->
  (shifted (trace st) ++ messageQueue st)%list `sublist_of` pushed (trace st)
  /\ sends (trace st) = omap send_of (shifted (trace st))
  /\ NoDup (map id (shifted (trace st) ++ messageQueue st)%list).
Proof.
  intros Hex.
  assert (Hacc : account (fun p s c q => (s ++ q)%list `sublist_of` p
                                          /\ c = omap send_of s) st).
  { apply (reachable_account _) with (evs := evs); [| | | |exact Hex].
    - intros p s c q m [Hsub ->]. split; [|reflexivity].
      rewrite app_assoc. now apply sublist_app.
    - intros p s c s' q' [Hsub ->]. split; [now rewrite <- app_assoc|].
      now rewrite omap_app.
    - intros p s c q [Hsub ->]. split; [|reflexivity].
      etransitivity; [|exact Hsub]. apply sublist_app; [reflexivity|].
      apply sublist_nil_l.
    - split; [reflexivity|reflexivity]. }
  destruct Hacc as [Hsub Hsends].
  split; [exact Hsub|]. split; [exact Hsends|].
  assert (Hfresh : fresh_ids st).
  { revert Hex. apply (exec_invariant fresh_ids).
    - intros ev s s' _. apply step_fresh_ids.
    - split; constructor. }
  destruct Hfresh as [Hnd _].
  eapply sublist_NoDup; [exact Hnd|]. now apply fmap_sublist.
Qed.

Lemma queue_never_invents_witness :
  let st := state_after (scenario_events
                           ++ [HttpClearQueue; SendSettled 0 Resolved; Elapse 2000;
                               TimerFired 0; HttpSendBulk scenario_messages]) in
  map id (pushed (trace st)) = [0; 1; 2; 3; 4; 5]
  /\ map id (shifted (trace st) ++ messageQueue st)%list = [0; 3; 4; 5]
  /\ (shifted (trace st) ++ messageQueue st)%list `sublist_of` pushed (trace st).
Proof.
  intros st. split; [vm_compute; reflexivity|]. split; [vm_compute; reflexivity|].
  apply (queue_never_invents
           (scenario_events
              ++ [HttpClearQueue; SendSettled 0 Resolved; Elapse 2000;
                  TimerFired 0; HttpSendBulk scenario_messages])).
  vm_compute; reflexivity.
Defined.

(** X2.  Every recipient that the server ever hands to
    [client.sendMessage] is a string of digits followed by "@c.us", and
    the digits are twelve, beginning with "91", or fewer than ten. *)
Theorem recipients_normalized
    (evs : list Event) (st : State) (chatId : string) (content : JsValue) :
  exec evs initial_state = Some st ->
  In (chatId, content) (sends (trace st)) ->
  exists d,
    chatId = d ++ "@c.us" /\ all_digits d
    /\ ((String.prefix "91" d = true /\ String.length d = 12) \/ String.length d < 10).
Proof.
  intros Hex Hin.
  assert (Hacc : account (fun p s c q => c = omap send_of s) st).
  { apply (reachable_account _) with (evs := evs); try exact Hex.
    - now intros p s c q m ->.
    - intros p s c s' q' ->. now rewrite omap_app.
    - now intros p s c q ->.
    - reflexivity. }
  unfold account in Hacc. rewrite Hacc in Hin.
  apply list_elem_of_In in Hin. apply list_elem_of_omap in Hin as (m & _ & Hm).
  unfold send_of in Hm. destruct (number m) as [| | | |x|]; try discriminate.
  injection Hm as <- _. exists (formatPhoneNumber x). split; [reflexivity|].
  apply formatPhoneNumber_shape.
Qed.

Lemma recipients_normalized_witness :
  exists d,
    "919876543210@c.us" = d ++ "@c.us" /\ all_digits d
    /\ ((String.prefix "91" d = true /\ String.length d = 12) \/ String.length d < 10).
Proof.
  apply (recipients_normalized scenario_events (state_after scenario_events)
           "919876543210@c.us" (JString "one")).
  - vm_compute; reflexivity.
  - vm_compute. left. reflexivity.
Defined.

(** ** The flag and the activation *)

Lemma healthy_ext (st st' : State) :
  drains st' = drains st -> isProcessingQueue st' = isProcessingQueue st ->
  messageQueue st' = messageQueue st -> healthy st -> healthy st'.
Proof.
  intros Hd Hf Hq ([Hlen Hfl] & [Hnq Hnd] & Ht).
  unfold healthy, single_drain, no_callbacks, flag_tracks. rewrite Hd, Hf, Hq. auto.
Qed.

Lemma healthy_idle (st : State) :
  healthy st -> isProcessingQueue st = false -> drains st = [].
Proof.
  intros ([_ Hfl] & _) Hf. destruct (drains st) as [|pc ds] eqn:E; [reflexivity|].
  rewrite Hfl in Hf; discriminate.
Qed.

Lemma processMessageQueue_healthy (st : State) :
  healthy st -> healthy (processMessageQueue st).
Proof.
  intros Hh. pose proof Hh as (Hs & Hn & Ht).
  split; [now apply processMessageQueue_single_drain|].
  split; [now apply processMessageQueue_no_callbacks|].
  destruct (isProcessingQueue st) eqn:Hf.
  { rewrite processMessageQueue_guard by (left; exact Hf). exact Ht. }
  destruct (isClientReady st) eqn:Hr.
  2:{ rewrite processMessageQueue_guard by (right; right; exact Hr). exact Ht. }
  pose proof (healthy_idle st Hh Hf) as Hd.
  destruct (processMessageQueue_cases st Hd Hf Hr Hn) as (_ & _ & _ & Hcase).
  unfold flag_tracks.
  destruct Hcase as [(_ & Hf1 & _)|(m & fn & Hd1 & _)].
  - now rewrite Hf1.
  - now rewrite Hd1.
Qed.

Lemma continue_loop_healthy (st : State) (pc : DrainPc) :
  healthy st -> drains st = [pc] -> healthy (continue_loop 0 st).
Proof.
  intros (Hs & Hn & Ht) Hd.
  split; [apply continue_loop_single_drain; [exact Hs|now rewrite Hd]|].
  split; [now apply continue_loop_no_callbacks|].
  destruct (continue_loop_cases st pc Hd Hn) as (_ & _ & _ & Hcase).
  unfold flag_tracks.
  destruct Hcase as [(_ & Hf1 & _)|(m & fn & Hd1 & _)].
  - now rewrite Hf1.
  - now rewrite Hd1.
Qed.

Lemma single_drain_lookup (st : State) (i : nat) (pc : DrainPc) :
  single_drain st -> drains st !! i = Some pc -> i = 0 /\ drains st = [pc].
Proof.
  intros [Hlen _] Hi.
  destruct (drains st) as [|pc0 [|pc1 ds]]; cbn in *; [discriminate| |lia].
  destruct i; cbn in Hi; [|discriminate]. injection Hi as ->. auto.
Qed.

Lemma fold_push_healthy (f : BulkItem -> bool) (items : list BulkItem) (st : State) :
  healthy st ->
  healthy (fold_left (fun st msg => if f msg then st else push_message msg st) items st).
Proof.
  apply (fold_push_invariant healthy). clear. intros item st ([Hlen Hfl] & Hn & Ht).
  split; [now split|]. split; [now apply push_message_no_callbacks|exact Ht].
Qed.

Lemma step_healthy (ev : Event) (st st' : State) :
  healthy st -> step ev st = Some st' -> healthy st'.
Proof.
  intros Hh. pose proof Hh as (Hs & Hn & Ht).
  destruct ev; cbn [step];
    try (intros [= <-]; apply (healthy_ext st); [reflexivity..|exact Hh]).
  - intros [= <-]. unfold post_send_bulk_messages.
    destruct (_ =? _)%nat; [exact Hh|]. destruct (negb _); [exact Hh|].
    apply processMessageQueue_healthy.
    now apply (fold_push_healthy
                 (fun msg => negb (truthy (item_number msg))
                             || negb (truthy (item_message msg)))).
  - intros [= <-]. unfold post_send_notifications.
    destruct (_ =? _)%nat; [exact Hh|]. destruct (negb _); [exact Hh|].
    apply processMessageQueue_healthy. now apply (fold_push_healthy (fun _ => false)).
  - intros [= <-]. split; [exact Hs|]. split; [|exact Ht].
    destruct Hn as [_ Hd]. split; [constructor|exact Hd].
  - intros [= <-]. rewrite cron_tick_processMessageQueue.
    now apply processMessageQueue_healthy.
  - intros Hstep. pose proof Hstep as Hstep'. unfold resume_send in Hstep.
    destruct (drains st !! i) as [[m fn|m wake]|] eqn:Hi; [|discriminate..].
    destruct (single_drain_lookup st i _ Hs Hi) as [-> Hd].
    assert (Hm : no_callback m).
    { destruct Hn as [_ Hpc]. rewrite Hd in Hpc. now inversion Hpc. }
    split; [now apply (resume_send_single_drain 0 result st)|].
    split; [now apply (step_no_callbacks (SendSettled 0 result) st)|].
    unfold notify in Hstep. rewrite Hm in Hstep. cbn [mret Completion_ret] in Hstep.
    destruct result as [|error].
    + injection Hstep as <-. unfold flag_tracks. cbn. rewrite Hd. discriminate.
    + injection Hstep as <-. unfold enter_catch, catch_block, notify. rewrite Hm.
      cbn [mret Completion_ret].
      apply (continue_loop_healthy (emit [Outcome m failed] st) (AwaitSend m fn));
        [|exact Hd].
      now apply (healthy_ext st).
  - intros Hstep. unfold resume_delay in Hstep.
    destruct (drains st !! i) as [[m fn|m wake]|] eqn:Hi; [discriminate| |discriminate].
    destruct (single_drain_lookup st i _ Hs Hi) as [-> Hd].
    destruct (wake <=? now st)%Z; [|discriminate]. injection Hstep as <-.
    now apply (continue_loop_healthy st (AwaitDelay m wake)).
  - destruct (0 <=? dt)%Z; [|discriminate]. intros [= <-].
    apply (healthy_ext st); [reflexivity..|exact Hh].
Qed.




(** ** No entry is stranded *)



(** ** Readiness gates every send *)

Lemma run_loop_not_ready (st st' : State) (ex : LoopExit) :
  isClientReady st = false -> run_loop st = (st', ex) ->
  trace st' = trace st /\ messageQueue st' = messageQueue st
  /\ isClientReady st' = false.
Proof.
  intros Hr Hrun.
  apply run_loop_spec in Hrun as (q' & acts & Hw & Hq' & Htr & _ & Hrd & _).
  rewrite Hr in Hw. destruct (messageQueue st) as [|m q] eqn:Hq; cbn in Hw;
    injection Hw as <- <- <-; rewrite Htr, Hq', Hrd; cbn; rewrite app_nil_r; auto.
Qed.

Lemma continue_loop_not_ready (i : nat) (st : State) :
  isClientReady st = false ->
  trace (continue_loop i st) = trace st
  /\ messageQueue (continue_loop i st) = messageQueue st
  /\ isClientReady (continue_loop i st) = false.
Proof.
  intros Hr. unfold continue_loop. destruct (run_loop st) as [st' ex] eqn:Hrun.
  apply (run_loop_not_ready _ _ _ Hr) in Hrun. now destruct ex.
Qed.

(** X5.  While the session is not ready, no event other than the client's
    [ready] makes the server push, shift or send anything, whatever the
    state (callbacks included): a request that enqueues is refused, the
    scheduler and the guard do nothing, and a resumed activation leaves the
    loop on its readiness test.  The queue is as it was, unless the event
    is the request that clears it. *)
Theorem not_ready_sends_nothing (ev : Event) (st st' : State) :
  isClientReady st = false -> ev <> ClientReady ->
  step ev st = Some st' ->
  isClientReady st' = false
  /\ pushed (trace st') = pushed (trace st)
  /\ shifted (trace st') = shifted (trace st)
  /\ sends (trace st') = sends (trace st)
  /\ (messageQueue st' = messageQueue st \/ (ev = HttpClearQueue /\ messageQueue st' = [])).
Proof.
  intros Hr Hev.
  assert (Hcatch : forall i m error s,
            isClientReady s = false ->
            isClientReady (enter_catch i m error s) = false
            /\ pushed (trace (enter_catch i m error s)) = pushed (trace s)
            /\ shifted (trace (enter_catch i m error s)) = shifted (trace s)
            /\ sends (trace (enter_catch i m error s)) = sends (trace s)
            /\ messageQueue (enter_catch i m error s) = messageQueue s).
  { intros i m error s Hs. unfold enter_catch. destruct (catch_block m error).
    - destruct (continue_loop_not_ready i (emit [Outcome m failed] s) Hs) as (-> & -> & ->).
      destruct (emit_silent [Outcome m failed] s eq_refl) as (-> & -> & ->). auto.
    - cbn. rewrite !pushed_app, !shifted_app, !sends_app. cbn.
      rewrite !app_nil_r. auto. }
  destruct ev; cbn [step]; try congruence;
    try (intros [= <-]; cbn; rewrite ?Hr; now auto 10).
  - intros [= <-]. unfold post_send_bulk_messages. rewrite Hr. cbn.
    destruct (_ =? _)%nat; auto 10.
  - intros [= <-]. unfold post_send_notifications. rewrite Hr. cbn.
    destruct (_ =? _)%nat; auto 10.
  - intros [= <-]. unfold cron_tick. rewrite Hr, andb_false_r. cbn. auto 10.
  - unfold resume_send.
    destruct (drains st !! i) as [[m fn|m wake]|]; [|discriminate..].
    destruct result as [|error].
    + destruct (notify m sent None).
      * intros [= <-]. cbn. rewrite !pushed_app, !shifted_app, !sends_app. cbn.
        rewrite !app_nil_r. auto 10.
      * intros [= <-].
        destruct (Hcatch i m e (emit [Outcome m sent] st) Hr) as (-> & -> & -> & -> & ->).
        destruct (emit_silent [Outcome m sent] st eq_refl) as (-> & -> & ->). auto 10.
    + intros [= <-]. destruct (Hcatch i m error st Hr) as (-> & -> & -> & -> & ->).
      auto 10.
  - unfold resume_delay.
    destruct (drains st !! i) as [[m fn|m wake]|]; [discriminate| |discriminate].
    destruct (wake <=? now st)%Z; [|discriminate]. intros [= <-].
    destruct (continue_loop_not_ready i st Hr) as (-> & -> & ->). auto 10.
  - destruct (0 <=? dt)%Z; [|discriminate]. intros [= <-]. cbn. auto 10.
Qed.

Lemma not_ready_sends_nothing_witness :
  let st := state_after (scenario_events ++ [ClientDisconnected]) in
  let st' := state_after (scenario_events
                            ++ [ClientDisconnected; SendSettled 0 Resolved]) in
  isClientReady st' = false /\ sends (trace st') = sends (trace st)
  /\ shifted (trace st') = shifted (trace st).
Proof.
  intros st st'.
  destruct (not_ready_sends_nothing (SendSettled 0 Resolved) st st')
    as (H1 & _ & H3 & H4 & _).
  - vm_compute; reflexivity.
  - discriminate.
  - vm_compute; reflexivity.
  - auto.
Defined.

(** ** Entries without a string for a number *)




(** ** Pacing over a whole run *)

Lemma sends_spaced_app (tr blk : list (Z * Action)) :
  sends_spaced tr -> sends_spaced blk ->
  (forall t m t' c b, In (t, Outcome m sent) tr -> In (t', SendMessage c b) blk ->
     (t + pacing_delay <= t')%Z) ->
  sends_spaced (tr ++ blk).
Proof.
  intros Htr Hblk Hcross pre t m post t' c b Heq Hin.
  apply app_eq_app in Heq as [k [[Hk1 Hk2]|[Hk1 Hk2]]].
  - (* the outcome is in [tr], or the first of [blk] *)
    destruct k as [|x k].
    + cbn in Hk2. apply (Hblk [] t m post t' c b); [now rewrite <- Hk2|exact Hin].
    + cbn in Hk2. injection Hk2 as <- ->.
      apply in_app_or in Hin as [Hin|Hin].
      * apply (Htr pre t m k t' c b); [exact Hk1|exact Hin].
      * apply (Hcross t m t' c b); [|exact Hin].
        rewrite Hk1. apply in_or_app. right. now left.
  - (* the outcome is in [blk] *)
    apply (Hblk k t m post t' c b); [exact Hk2|exact Hin].
Qed.

Lemma sends_spaced_without_sends (blk : list (Z * Action)) :
  (forall t' c b, ~ In (t', SendMessage c b) blk) -> sends_spaced blk.
Proof.
  intros Hnone pre t m post t' c b Heq Hin. exfalso. apply (Hnone t' c b).
  rewrite Heq. apply in_or_app. right. now right.
Qed.

Lemma block_without_sends (t0 : Z) (acts : list Action) :
  forallb (fun a => negb (is_send a)) acts = true ->
  forall t' c b, ~ In (t', SendMessage c b) (map (fun a => (t0, a)) acts).
Proof.
  intros Hns t' c b Hin. apply in_map_iff in Hin as (a & [= _ ->] & Hin).
  rewrite forallb_forall in Hns. now apply Hns in Hin.
Qed.

Lemma block_without_sent (t0 : Z) (acts : list Action) :
  forallb (fun a => negb (is_sent_outcome a)) acts = true ->
  forall t m, ~ In (t, Outcome m sent) (map (fun a => (t0, a)) acts).
Proof.
  intros Hns t m Hin. apply in_map_iff in Hin as (a & [= _ ->] & Hin).
  rewrite forallb_forall in Hns. now apply Hns in Hin.
Qed.

Lemma while_loop_without_sent (b : bool) (q : list QueuedMessage) :
  forall q' acts ex, while_loop b q = (q', acts, ex) ->
  forallb (fun a => negb (is_sent_outcome a)) acts = true.
Proof.
  induction q as [|m q IH]; intros q' acts ex Hw; cbn [while_loop] in Hw.
  { now inversion Hw. }
  destruct b; [|now inversion Hw].
  destruct (call_formatPhoneNumber (number m)); [now inversion Hw|].
  destruct (catch_block m e); [|now inversion Hw].
  destruct (while_loop true q) as [[q1 acts1] ex1].
  inversion Hw; subst. cbn. now apply (IH q' acts1 ex).
Qed.

(** A block of actions at the present time, none of them a successful
    outcome, keeps the spacing when every success so far is a pacing delay
    back. *)
Lemma emit_spaced_now (acts : list Action) (st : State) :
  forallb (fun a => negb (is_sent_outcome a)) acts = true ->
  sends_spaced (trace st) -> sent_before (now st) (trace st) ->
  sends_spaced (trace (emit acts st)) /\ sent_before (now st) (trace (emit acts st)).
Proof.
  intros Hns Hsp Hsb. unfold emit. cbn [trace]. split.
  - apply sends_spaced_app; [exact Hsp| |].
    + intros pre t m post t' c b Heq _.
      exfalso. apply (block_without_sent (now st) acts Hns t m).
      rewrite Heq. apply in_or_app. right. now left.
    + intros t m t' c b Hin Hin'. apply in_map_iff in Hin' as (a & [= <- _] & _).
      now apply (Hsb t m).
  - intros t m Hin. apply in_app_or in Hin as [Hin|Hin]; [now apply (Hsb t m)|].
    now apply (block_without_sent (now st) acts Hns) in Hin.
Qed.

(** A block without sends keeps the spacing, whatever the time. *)
Lemma emit_spaced_silent (acts : list Action) (st : State) :
  forallb (fun a => negb (is_send a)) acts = true ->
  forallb (fun a => negb (is_sent_outcome a)) acts = true ->
  forall x, sends_spaced (trace st) -> sent_before x (trace st) ->
  sends_spaced (trace (emit acts st)) /\ sent_before x (trace (emit acts st)).
Proof.
  intros Hnsend Hnsent x Hsp Hsb. unfold emit. cbn [trace]. split.
  - apply sends_spaced_app; [exact Hsp| |].
    + intros pre t m post t' c b Heq _.
      exfalso. apply (block_without_sent (now st) acts Hnsent t m).
      rewrite Heq. apply in_or_app. right. now left.
    + intros t m t' c b _ Hin'.
      now apply (block_without_sends (now st) acts Hnsend) in Hin'.
  - intros t m Hin. apply in_app_or in Hin as [Hin|Hin]; [now apply (Hsb t m)|].
    now apply (block_without_sent (now st) acts Hnsent) in Hin.
Qed.

Lemma run_loop_spaced (st st' : State) (ex : LoopExit) :
  sends_spaced (trace st) -> sent_before (now st) (trace st) ->
  run_loop st = (st', ex) ->
  sends_spaced (trace st') /\ sent_before (now st') (trace st').
Proof.
  intros Hsp Hsb Hr.
  apply run_loop_spec in Hr as (q' & acts & Hw & _ & Htr & _ & _ & _ & _ & Hnow & _).
  apply while_loop_without_sent in Hw.
  destruct (emit_spaced_now acts st Hw Hsp Hsb) as [H1 H2].
  rewrite Htr, Hnow. now split.
Qed.

Lemma continue_loop_spaced (i : nat) (st : State) :
  sends_spaced (trace st) -> sent_before (now st) (trace st) ->
  sends_spaced (trace (continue_loop i st))
  /\ sent_before (now (continue_loop i st)) (trace (continue_loop i st)).
Proof.
  intros Hsp Hsb. unfold continue_loop. destruct (run_loop st) as [st' ex] eqn:Hr.
  apply (run_loop_spaced _ _ _ Hsp Hsb) in Hr. now destruct ex.
Qed.

Lemma gate_not_waiting (st : State) :
  drains st = [] \/ (exists m fn, drains st = [AwaitSend m fn]) -> gate st = now st.
Proof. unfold gate. now intros [->|(m & fn & ->)]. Qed.

Lemma processMessageQueue_paced (st : State) :
  healthy st -> paced st -> paced (processMessageQueue st).
Proof.
  intros Hh [Hsp Hsb]. pose proof Hh as (Hs & Hn & Ht).
  destruct (isProcessingQueue st) eqn:Hf.
  { rewrite processMessageQueue_guard by (left; exact Hf). now split. }
  destruct (isClientReady st) eqn:Hr.
  2:{ rewrite processMessageQueue_guard by (right; right; exact Hr). now split. }
  pose proof (healthy_idle st Hh Hf) as Hd.
  rewrite (gate_not_waiting st) in Hsb by (left; exact Hd).
  destruct (processMessageQueue_cases st Hd Hf Hr Hn) as (_ & _ & _ & Hcase).
  assert (Hgate : gate (processMessageQueue st) = now (processMessageQueue st)).
  { apply gate_not_waiting. destruct Hcase as [(H1 & _)|(m & fn & H1 & _)]; eauto. }
  unfold paced. rewrite Hgate. clear Hgate Hcase.
  unfold processMessageQueue. destruct (_ || _); [now split|].
  destruct (run_loop _) as [st' ex] eqn:Hrun.
  apply run_loop_spaced in Hrun; [|exact Hsp|exact Hsb]. now destruct ex.
Qed.

Lemma push_message_paced (item : BulkItem) (st : State) :
  paced st -> paced (push_message item st).
Proof.
  intros [Hsp Hsb]. unfold push_message.
  set (m := {| id := next_uuid st; number := item_number item;
               message := item_message item; statusCallback := None |}).
  set (s := set_next_uuid (S (next_uuid st)) (set_messageQueue (messageQueue st ++ [m]) st)).
  destruct (emit_spaced_silent [Push m] s eq_refl eq_refl (gate st)) as [H1 H2];
    [exact Hsp|exact Hsb|].
  now split.
Qed.

Lemma fold_push_both (f : BulkItem -> bool) (items : list BulkItem) (st : State) :
  healthy st -> paced st ->
  let st' := fold_left (fun st msg => if f msg then st else push_message msg st) items st in
  healthy st' /\ paced st'.
Proof.
  intros Hh Hp. cbv zeta.
  apply (fold_push_invariant (fun s => healthy s /\ paced s)); [|now split].
  clear. intros item st [([Hlen Hfl] & Hn & Ht) Hp]. split.
  - split; [now split|]. split; [now apply push_message_no_callbacks|exact Ht].
  - now apply push_message_paced.
Qed.

Lemma step_paced (ev : Event) (st st' : State) :
  healthy st -> paced st -> step ev st = Some st' -> paced st'.
Proof.
  intros Hh Hp. pose proof Hh as (Hs & Hn & Ht). pose proof Hp as [Hsp Hsb].
  destruct ev; cbn [step]; try (intros [= <-]; exact Hp).
  - intros [= <-]. unfold post_send_bulk_messages.
    destruct (_ =? _)%nat; [exact Hp|]. destruct (negb _); [exact Hp|].
    destruct (fold_push_both
                (fun msg => negb (truthy (item_number msg)) || negb (truthy (item_message msg)))
                messages st Hh Hp) as [Hh' Hp'].
    now apply processMessageQueue_paced.
  - intros [= <-]. unfold post_send_notifications.
    destruct (_ =? _)%nat; [exact Hp|]. destruct (negb _); [exact Hp|].
    destruct (fold_push_both (fun _ => false) messages st Hh Hp) as [Hh' Hp'].
    now apply processMessageQueue_paced.
  - intros [= <-]. rewrite cron_tick_processMessageQueue.
    now apply processMessageQueue_paced.
  - intros Hstep. unfold resume_send in Hstep.
    destruct (drains st !! i) as [[m fn|m wake]|] eqn:Hi; [|discriminate..].
    destruct (single_drain_lookup st i _ Hs Hi) as [-> Hd].
    assert (Hm : no_callback m).
    { destruct Hn as [_ Hpc]. rewrite Hd in Hpc. now inversion Hpc. }
    rewrite (gate_not_waiting st) in Hsb by (right; eauto).
    unfold notify in Hstep. rewrite Hm in Hstep. cbn [mret Completion_ret] in Hstep.
    destruct result as [|error]; injection Hstep as <-.
    + (* resolved: the outcome, then the timer *)
      pose proof (block_without_sends (now st) [Outcome m sent; SetTimeout pacing_delay]
                    eq_refl) as Hnone.
      unfold paced, gate. cbn [drains trace set_drains emit]. rewrite Hd.
      cbn [insert list_insert map] in *. rewrite <- app_assoc. cbn [app]. split.
      * apply sends_spaced_app; [exact Hsp|now apply sends_spaced_without_sends|].
        intros t m' t' c b _ Hin. now apply Hnone in Hin.
      * intros t m' Hin.
        apply in_app_or in Hin as [Hin|[[= <- _]|[[=]|[]]]].
        -- specialize (Hsb t m' Hin). unfold pacing_delay in *. lia.
        -- lia.
    + (* rejected: the catch block, then the loop *)
      unfold enter_catch, catch_block, notify. rewrite Hm. cbn [mret Completion_ret].
      set (st0 := emit [Outcome m failed] st).
      destruct (emit_spaced_now [Outcome m failed] st eq_refl Hsp Hsb) as [Hsp0 Hsb0].
      destruct (continue_loop_spaced 0 st0 Hsp0 Hsb0) as [H1 H2].
      assert (Hn0 : no_callbacks st0) by exact Hn.
      destruct (continue_loop_cases st0 (AwaitSend m fn) Hd Hn0) as (_ & _ & _ & Hcase).
      unfold paced. rewrite gate_not_waiting; [now split|].
      destruct Hcase as [(Hd1 & _)|(m' & fn' & Hd1 & _)]; eauto.
  - intros Hstep. unfold resume_delay in Hstep.
    destruct (drains st !! i) as [[m fn|m wake]|] eqn:Hi; [discriminate| |discriminate].
    destruct (single_drain_lookup st i _ Hs Hi) as [-> Hd].
    destruct (Z.leb_spec wake (now st)) as [Hw|_]; [|discriminate].
    injection Hstep as <-.
    assert (Hsb' : sent_before (now st) (trace st)).
    { intros t m' Hin. unfold gate in Hsb. rewrite Hd in Hsb.
      specialize (Hsb t m' Hin). lia. }
    destruct (continue_loop_spaced 0 st Hsp Hsb') as [H1 H2].
    destruct (continue_loop_cases st (AwaitDelay m wake) Hd Hn) as (_ & _ & _ & Hcase).
    unfold paced. rewrite gate_not_waiting; [now split|].
    destruct Hcase as [(Hd1 & _)|(m' & fn' & Hd1 & _)]; eauto.
  - destruct (Z.leb_spec 0 dt) as [Hdt|_]; [|discriminate]. intros [= <-].
    split; [exact Hsp|]. intros t m Hin. specialize (Hsb t m Hin).
    unfold gate in *. cbn [drains now set_now].
    destruct (drains st) as [|[m' fn'|m' wake'] ds]; lia.
Qed.

Lemma reachable_paced (evs : list Event) (st : State) :
  exec evs initial_state = Some st -> healthy st /\ paced st.
Proof.
  apply (exec_invariant (fun s => healthy s /\ paced s)).
  - intros ev s s' _ [Hh Hp] Hstep. split.
    + now apply (step_healthy ev s).
    + now apply (step_paced ev s).
  - split.
    + split; [split; [cbn; lia|done]|]. split; [split; constructor|]. discriminate.
    + split.
      * intros pre t m post t' c b Heq. now destruct pre.
      * intros t m [].
Qed.

(** X7.  In every run of the server, a call of [client.sendMessage] that
    comes after a send reported as successful comes at least 2000 ms after
    it, whatever the requests, ticks and session events in between. *)
Theorem sends_paced_after_success
    (evs : list Event) (st : State) (pre post : list (Z * Action))
    (t t' : Z) (m : QueuedMessage) (chatId : string) (content : JsValue) :
  exec evs initial_state = Some st ->
  trace st = (pre ++ (t, Outcome m sent) :: post)%list ->
  In (t', SendMessage chatId content) post ->
  (t + 2000 <= t')%Z.
Proof.
  intros Hex Htr Hin. destruct (reachable_paced evs st Hex) as [_ [Hsp _]].
  exact (Hsp pre t m post t' chatId content Htr Hin).
Qed.

Lemma sends_paced_after_success_witness :
  let st := state_after (scenario_events
                           ++ [SendSettled 0 Resolved; Elapse 2000; TimerFired 0]) in
  In (0%Z, Outcome scenario_first sent) (trace st)
  /\ In (2000%Z, SendMessage "919876543211@c.us" (JString "two")) (trace st)
  /\ (0 + 2000 <= 2000)%Z.
Proof.
  intros st. split; [vm_compute; auto 10|]. split; [vm_compute; auto 10|].
  apply (sends_paced_after_success
           (scenario_events ++ [SendSettled 0 Resolved; Elapse 2000; TimerFired 0])
           st (take 5 (trace st)) (drop 6 (trace st)) 0 2000 scenario_first
           "919876543211@c.us" (JString "two")).
  - vm_compute; reflexivity.
  - vm_compute; reflexivity.
  - vm_compute; auto 10.
Defined.

(** ** More on phone numbers *)

Lemma drop_two_of_twelve (ds rest : list ascii) :
  ds = "9"%char :: "1"%char :: rest -> length ds = 12 ->
  "9"%char :: "1"%char :: drop (length ds - 10) ds = ds.
Proof. intros -> Hlen. now rewrite Hlen. Qed.

(** X8.  Whenever the input has at least ten digits, the result is "91"
    followed by the last ten of its digits: the test for a 12-digit "91"
    number changes nothing, and whatever stands before the last ten digits
    (another country code, a trunk zero) is replaced by "91". *)
Theorem formatPhoneNumber_ten_or_more (raw : string) :
  10 <= length (digits_of raw) ->
  formatPhoneNumber raw
  = "91" ++ string_of_list_ascii
              (drop (length (digits_of raw) - 10) (digits_of raw)).
Proof.
  intros Hge. apply string_eq_by_list.
  rewrite formatPhoneNumber_digits. cbv zeta.
  rewrite list_ascii_append, list_ascii_of_string_of_list_ascii.
  change (list_ascii_of_string "91") with ["9"%char; "1"%char].
  cbn [app].
  destruct (String.prefix "91" (replace_non_digits raw)) eqn:Hp; cbn [andb].
  - destruct (Nat.eqb_spec (length (digits_of raw)) 12) as [H12|_].
    + apply prefix_91_list in Hp. rewrite list_ascii_replace_non_digits in Hp.
      destruct Hp as [rest Hrest]. symmetry. now apply (drop_two_of_twelve _ rest).
    + destruct (Nat.eqb_spec (length (digits_of raw)) 10) as [H10|_].
      * now rewrite H10.
      * apply Nat.leb_le in Hge. now rewrite Hge.
  - destruct (Nat.eqb_spec (length (digits_of raw)) 10) as [H10|_].
    + now rewrite H10.
    + apply Nat.leb_le in Hge. now rewrite Hge.
Qed.

Lemma formatPhoneNumber_ten_or_more_witness :
  formatPhoneNumber "+44 (0) 9876-543210" = "919876543210"
  /\ formatPhoneNumber "09876543210" = "919876543210".
Proof.
  split.
  - rewrite (formatPhoneNumber_ten_or_more "+44 (0) 9876-543210");
      [vm_compute; reflexivity|apply Nat.leb_le; vm_compute; reflexivity].
  - vm_compute; reflexivity.
Defined.

(** X9.  The result has digits only and is never ten or eleven digits
    long nor longer than twelve: it has twelve digits, the first two "91",
    exactly when the input has at least ten digits, and otherwise it has
    the digits of the input, fewer than ten. *)
Theorem formatPhoneNumber_range (raw : string) :
  all_digits (formatPhoneNumber raw)
  /\ (10 <= length (digits_of raw) ->
      String.length (formatPhoneNumber raw) = 12
      /\ String.prefix "91" (formatPhoneNumber raw) = true)
  /\ (length (digits_of raw) < 10 ->
      formatPhoneNumber raw = string_of_list_ascii (digits_of raw)
      /\ String.length (formatPhoneNumber raw) < 10).
Proof.
  destruct (formatPhoneNumber_shape raw) as [Hd Hs]. split; [exact Hd|].
  assert (Hlen : String.length (replace_non_digits raw) = length (digits_of raw)).
  { now rewrite <- list_ascii_replace_non_digits, length_list_ascii. }
  split.
  - intros Hge.
    assert (Hlen12 : String.length (formatPhoneNumber raw) = 12).
    { rewrite <- length_list_ascii, formatPhoneNumber_digits. cbv zeta.
      destruct (String.prefix "91" (replace_non_digits raw)
                && (length (digits_of raw) =? 12)%nat) eqn:E.
      - apply andb_true_iff in E as [_ E]. now apply Nat.eqb_eq in E.
      - destruct (Nat.eqb_spec (length (digits_of raw)) 10) as [H10|_].
        + cbn. now rewrite H10.
        + pose proof Hge as Hge'. apply Nat.leb_le in Hge'. rewrite Hge'.
          cbn [length]. rewrite length_drop. lia. }
    split; [exact Hlen12|]. destruct Hs as [[Hp _]|Hlt]; [exact Hp|lia].
  - intros Hlt.
    assert (Heq : formatPhoneNumber raw = string_of_list_ascii (digits_of raw)).
    { apply string_eq_by_list. rewrite formatPhoneNumber_digits. cbv zeta.
      rewrite list_ascii_of_string_of_list_ascii.
      destruct (Nat.eqb_spec (length (digits_of raw)) 12); [lia|]. rewrite andb_false_r.
      destruct (Nat.eqb_spec (length (digits_of raw)) 10); [lia|].
      destruct (Nat.leb_spec 10 (length (digits_of raw))); [lia|reflexivity]. }
    split; [exact Heq|].
    rewrite Heq, <- length_list_ascii, list_ascii_of_string_of_list_ascii. exact Hlt.
Qed.

Lemma formatPhoneNumber_range_witness :
  String.length (formatPhoneNumber "tel: 98765 43210 ext 7") = 12
  /\ formatPhoneNumber "12-34-5" = "12345".
Proof.
  destruct (formatPhoneNumber_range "tel: 98765 43210 ext 7") as (_ & Hge & _).
  destruct (formatPhoneNumber_range "12-34-5") as (_ & _ & Hlt).
  split.
  - apply Hge. apply Nat.leb_le. vm_compute; reflexivity.
  - destruct Hlt as [-> _]; [apply Nat.ltb_lt; vm_compute; reflexivity
                            |vm_compute; reflexivity].
Defined.

(** ** When the templaters throw, and what wraps their text *)

Lemma string_app_assoc (a b c : string) : (a ++ b) ++ c = a ++ b ++ c.
Proof.
  induction a as [|x a IH]; [reflexivity|].
  change (String x ((a ++ b) ++ c) = String x (a ++ b ++ c)). now rewrite IH.
Qed.

Lemma starts_with_refl (p : string) : starts_with p p.
Proof.
  exists "". induction p as [|x p IH]; [reflexivity|].
  change (String x p = String x (p ++ "")). now rewrite <- IH.
Qed.

Lemma starts_with_app (p s x : string) : starts_with p s -> starts_with p (s ++ x).
Proof. intros [r ->]. exists (r ++ x). apply string_app_assoc. Qed.

Lemma starts_with_if (p s1 s2 : string) (b : bool) :
  starts_with p s1 -> starts_with p s2 -> starts_with p (if b then s1 else s2).
Proof. now destruct b. Qed.

Ltac starts_with_message :=
  repeat first [ apply starts_with_refl
               | apply starts_with_if
               | apply starts_with_app ].

Section TemplateErrors.
Context `{JsRuntime}.





(** X11.  A text that [formatEventMessage] returns begins with the header
    and the greeting of the staff member and ends with the closing line,
    whatever the event holds. *)
Theorem formatEventMessage_wrapped (ev : event.t) (st : staff.t) (text : string) :
  formatEventMessage ev st = Normal text ->
  starts_with (("*EVENT ASSIGNMENT*" ++ nl ++ nl)
               ++ "Hello *" ++ ToString (staff.full_name st) ++ "*," ++ nl ++ nl) text
  /\ ends_with (nl ++ "Thank you for your professionalism and commitment.") text.
Proof.
  unfold formatEventMessage, mbind, Completion_bind.
  destruct (call_toUpperCase _) as [role|e]; [|discriminate].
  destruct (formatDate _) as [date|e]; [|discriminate].
  destruct (truthy_and_not_blank (event.venue ev)) as [hv|e]; [|discriminate].
  destruct (truthy_and_not_blank (event.description ev)) as [hd|e]; [|discriminate].
  intros [= <-]. split; [|now eexists]. starts_with_message.
Qed.


End TemplateErrors.


Lemma formatEventMessage_wrapped_witness :
  let ev := {| event.id := JNumber 7; event.role := JUndefined;
               event.title := JString "Gala";
               event.eventType := JUndefined; event.event_type := JUndefined;
               event.eventDate := JString "2024-03-05"; event.event_date := JUndefined;
               event.venue := JUndefined; event.clientName := JUndefined;
               event.client_name := JUndefined; event.totalDays := JUndefined;
               event.total_days := JUndefined; event.description := JUndefined |} in
  let st := {| staff.id := JNumber 1; staff.full_name := JString "Asha";
               staff.role := JString "usher"; staff.mobile_number := JString "9876543210" |} in
  exists text,
    @formatEventMessage Sample.runtime ev st = Normal text
    /\ starts_with (("*EVENT ASSIGNMENT*" ++ nl ++ nl) ++ "Hello *Asha*," ++ nl ++ nl) text.
Proof.
  intros ev st. eexists. split; [vm_compute; reflexivity|].
  eapply (@formatEventMessage_wrapped Sample.runtime ev st). vm_compute; reflexivity.
Defined.


(** ** The answers of the routes that enqueue *)


Lemma push_message_pushed (item : BulkItem) (st : State) :
  exists m,
    pushed (trace (push_message item st)) = (pushed (trace st) ++ [m])%list
    /\ item_of m = item /\ id m = next_uuid st /\ no_callback m.
Proof.
  eexists. split.
  - unfold push_message, emit. cbn. rewrite pushed_app. reflexivity.
  - now destruct item.
Qed.






(** What one rendered entry holds of the staff member it is for. *)
Lemma render_messages_cases (render : staff.t -> Completion string)
    (staff_list : list staff.t) :
  match render_messages render staff_list with
  | Throw e => exists staff, In staff staff_list /\ render staff = Throw e
  | Normal items =>
      Forall2 (fun staff item =>
                 item_number item = staff.mobile_number staff
                 /\ exists text, render staff = Normal text
                                 /\ item_message item = JString text)
              staff_list items
  end.
Proof.
  induction staff_list as [|staff rest IH]; cbn [render_messages].
  { constructor. }
  unfold mbind, Completion_bind, mret, Completion_ret.
  destruct (render staff) as [text|e] eqn:Hr.
  - destruct (render_messages render rest) as [items|e].
    + constructor; [|exact IH]. cbn. split; [reflexivity|]. now exists text.
    + destruct IH as (s & Hin & Hs). exists s. split; [now right|exact Hs].
  - exists staff. split; [now left|exact Hr].
Qed.

Lemma staff_forEach_spec (messages : list BulkItem) :
  forall (staff_list : list staff.t) (index : nat) (results : list result.t) (st : State),
  length messages = length staff_list ->
  exists new_results new,
    staff_forEach index messages staff_list results st
    = ((results ++ new_results)%list,
       fold_left (fun st msg => push_message msg st) messages st)
    /\ pushed (trace (fold_left (fun st msg => push_message msg st) messages st))
       = (pushed (trace st) ++ new)%list
    /\ map item_of new = messages
    /\ map result.message_id new_results = map (fun m => Some (id m)) new
    /\ map result.staff_id new_results = map (fun s => Some (staff.id s)) staff_list
    /\ map result.index new_results = seq index (length staff_list)
    /\ Forall (fun r => result.success r = true) new_results.
Proof.
  induction messages as [|msg messages IH]; intros [|staff staff_list] index results st Hlen;
    try discriminate.
  { exists [], []. cbn. rewrite !app_nil_r. repeat split. constructor. }
  cbn [staff_forEach fold_left].
  destruct (push_message_pushed msg st) as (m & Hpush & Hitem & Hid & _).
  destruct (IH staff_list (S index)
               (results ++ [result_queued index (Some (staff.id staff)) (next_uuid st)])%list
               (push_message msg st))
    as (nr & new & Heq & Hp & Hitems & Hids & Hstaff & Hidx & Hok);
    [now injection Hlen|].
  exists (result_queued index (Some (staff.id staff)) (next_uuid st) :: nr), (m :: new).
  rewrite Heq, <- app_assoc. split; [reflexivity|].
  split; [now rewrite Hp, Hpush, <- app_assoc|].
  cbn. rewrite Hitem, Hitems, Hids, Hid, Hstaff, Hidx.
  repeat split. constructor; [reflexivity|exact Hok].
Qed.

(** The route of the notifications, whatever the templater. *)
Lemma send_staff_messages_spec (what : string) (title : JsValue)
    (render : staff.t -> Completion string) (staff_list : list staff.t) (st : State) :
  staff_list <> [] -> isClientReady st = true ->
  ((exists staff e, In staff staff_list /\ render staff = Throw e
                    /\ send_staff_messages what (Some title) render staff_list st
                       = (Throw e, st))
   \/ (exists answer new,
         send_staff_messages what (Some title) render staff_list st
         = (Normal answer, post_send_notifications (map item_of new) st)
         /\ pushed (trace (post_send_notifications (map item_of new) st))
            = (pushed (trace st) ++ new)%list
         /\ Forall2 (fun staff m =>
                       number m = staff.mobile_number staff
                       /\ render staff = Normal (ToString (message m))
                       /\ is_string (message m) = true)
                    staff_list new
         /\ response.code answer = 200
         /\ map result.message_id (response.results answer)
            = map (fun m => Some (id m)) new
         /\ map result.staff_id (response.results answer)
            = map (fun s => Some (staff.id s)) staff_list
         /\ map result.index (response.results answer) = seq 0 (length staff_list)
         /\ Forall (fun r => result.success r = true) (response.results answer))).
Proof.
  intros Hne Hr. unfold send_staff_messages, post_send_notifications.
  destruct staff_list as [|staff0 staff_rest]; [congruence|].
  cbn [length Nat.eqb]. rewrite Hr. cbn [negb].
  set (staff_list := staff0 :: staff_rest).
  pose proof (render_messages_cases render staff_list) as Hren.
  destruct (render_messages render staff_list) as [items|e].
  2:{ left. destruct Hren as (s & Hin & Hs). exists s, e. auto. }
  right.
  assert (Hlen : length items = length staff_list)
    by (symmetry; eapply Forall2_length; exact Hren).
  destruct (staff_forEach_spec items staff_list 0 [] st Hlen)
    as (nr & new & Heq & Hp & Hitems & Hids & Hstaff & Hidx & Hok).
  rewrite Heq. cbn [app].
  eexists. exists new. rewrite Hitems.
  assert (Hpos : (length items =? 0)%nat = false) by (now rewrite Hlen).
  rewrite Hpos. split; [reflexivity|].
  split.
  { destruct (processMessageQueue_pushed
                (fold_left (fun st msg => push_message msg st) items st)) as [-> _].
    exact Hp. }
  split.
  { subst items. clear - Hren. revert new Hren.
    induction staff_list as [|s staff_list IH]; intros [|m new] Hren;
      inversion Hren; subst; constructor.
    - destruct H2 as (Hn & text & Ht & Hm). destruct m as [i n msg cb].
      cbn in Hn, Hm |- *. subst msg. cbn. auto.
    - now apply IH. }
  cbn. auto.
Qed.

Section RouteAnswers.
Context `{JsRuntime}.

(** X15.  POST /api/send-event-messages, for a ready session and a staff
    list that is not empty, is all or nothing.  If [formatEventMessage]
    throws for one staff member the handler is left before anything is
    pushed and the state is unchanged.  Otherwise the route pushes exactly
    one entry for each staff member, in the order of the list, with the
    member's [mobile_number] as it came and the rendered text as message,
    and answers 200 with one successful result for each member carrying
    the member's id, the index and the identifier of the entry. *)
Theorem send_event_messages_all_or_nothing (ev : event.t) (staff_list : list staff.t)
    (st : State) :
  staff_list <> [] -> isClientReady st = true ->
  ((exists staff e, In staff staff_list /\ formatEventMessage ev staff = Throw e
                    /\ send_event_messages (Some ev) staff_list st = (Throw e, st))
   \/ (exists answer new,
         send_event_messages (Some ev) staff_list st
         = (Normal answer, post_send_notifications (map item_of new) st)
         /\ pushed (trace (post_send_notifications (map item_of new) st))
            = (pushed (trace st) ++ new)%list
         /\ Forall2 (fun staff m =>
                       number m = staff.mobile_number staff
                       /\ formatEventMessage ev staff = Normal (ToString (message m))
                       /\ is_string (message m) = true)
                    staff_list new
         /\ response.code answer = 200
         /\ map result.message_id (response.results answer)
            = map (fun m => Some (id m)) new
         /\ map result.staff_id (response.results answer)
            = map (fun s => Some (staff.id s)) staff_list
         /\ map result.index (response.results answer) = seq 0 (length staff_list)
         /\ Forall (fun r => result.success r = true) (response.results answer))).
Proof. intros Hne Hr. now apply send_staff_messages_spec. Qed.

(** X16.  POST /api/send-task-messages, for a ready session and a staff
    list that is not empty, is all or nothing in the same way: a throw of
    [formatTaskMessage] for one member leaves the state unchanged, and
    otherwise exactly one entry is pushed for each staff member, in order,
    with the member's [mobile_number] and the rendered text, and each
    result carries the member's id, the index and the entry's
    identifier. *)
Theorem send_task_messages_all_or_nothing (tk : task.t) (staff_list : list staff.t)
    (st : State) :
  staff_list <> [] -> isClientReady st = true ->
  ((exists staff e, In staff staff_list /\ formatTaskMessage tk staff = Throw e
                    /\ send_task_messages (Some tk) staff_list st = (Throw e, st))
   \/ (exists answer new,
         send_task_messages (Some tk) staff_list st
         = (Normal answer, post_send_notifications (map item_of new) st)
         /\ pushed (trace (post_send_notifications (map item_of new) st))
            = (pushed (trace st) ++ new)%list
         /\ Forall2 (fun staff m =>
                       number m = staff.mobile_number staff
                       /\ formatTaskMessage tk staff = Normal (ToString (message m))
                       /\ is_string (message m) = true)
                    staff_list new
         /\ response.code answer = 200
         /\ map result.message_id (response.results answer)
            = map (fun m => Some (id m)) new
         /\ map result.staff_id (response.results answer)
            = map (fun s => Some (staff.id s)) staff_list
         /\ map result.index (response.results answer) = seq 0 (length staff_list)
         /\ Forall (fun r => result.success r = true) (response.results answer))).
Proof. intros Hne Hr. now apply send_staff_messages_spec. Qed.

End RouteAnswers.

Lemma send_event_messages_all_or_nothing_witness :
  let ev := {| event.id := JNumber 7; event.role := JUndefined;
               event.title := JString "Gala";
               event.eventType := JUndefined; event.event_type := JUndefined;
               event.eventDate := JString "2024-03-05"; event.event_date := JUndefined;
               event.venue := JUndefined; event.clientName := JUndefined;
               event.client_name := JUndefined; event.totalDays := JUndefined;
               event.total_days := JUndefined; event.description := JUndefined |} in
  let asha := {| staff.id := JNumber 1; staff.full_name := JString "Asha";
                 staff.role := JString "usher";
                 staff.mobile_number := JString "9876543210" |} in
  let ravi := {| staff.id := JNumber 2; staff.full_name := JString "Ravi";
                 staff.role := JUndefined; staff.mobile_number := JNumber 5 |} in
  exists answer new,
    @send_event_messages Sample.runtime (Some ev) [asha; ravi] (state_after [ClientReady])
    = (Normal answer,
       post_send_notifications (map item_of new) (state_after [ClientReady]))
    /\ map number new = [JString "9876543210"; JNumber 5]
    /\ map result.staff_id (response.results answer) = [Some (JNumber 1); Some (JNumber 2)].
Proof.
  intros ev asha ravi.
  destruct (@send_event_messages_all_or_nothing Sample.runtime ev [asha; ravi]
              (state_after [ClientReady]))
    as [(s & e & Hin & Hthrow & _)|(answer & new & Heq & _ & Hall & _ & _ & Hstaff & _)].
  - discriminate.
  - vm_compute; reflexivity.
  - destruct Hin as [<-|[<-|[]]]; vm_compute in Hthrow; discriminate.
  - exists answer, new. split; [exact Heq|]. split; [|exact Hstaff].
    inversion Hall as [|? m1 ? l1 (Hn1 & _) Hrest]; subst.
    inversion Hrest as [|? m2 ? l2 (Hn2 & _) Hnil]; subst.
    inversion Hnil; subst. cbn [map]. now rewrite Hn1, Hn2.
Defined.

Lemma send_task_messages_all_or_nothing_witness :
  let tk := {| task.id := JNumber 4; task.title := JString "Lights";
               task.taskType := JUndefined; task.task_type := JUndefined;
               task.priority := JUndefined; task.dueDate := JUndefined;
               task.due_date := JUndefined; task.eventTitle := JUndefined;
               task.event_title := JUndefined; task.amount := JNumber 0;
               task.description := JNumber 5 |} in
  let asha := {| staff.id := JNumber 1; staff.full_name := JString "Asha";
                 staff.role := JString "usher";
                 staff.mobile_number := JString "9876543210" |} in
  snd (@send_task_messages Sample.runtime (Some tk) [asha] (state_after [ClientReady]))
  = state_after [ClientReady].
Proof.
  intros tk asha.
  destruct (@send_task_messages_all_or_nothing Sample.runtime tk [asha]
              (state_after [ClientReady]))
    as [(s & e & _ & _ & Heq)|(answer & new & _ & _ & Hall & _)].
  - discriminate.
  - vm_compute; reflexivity.
  - now rewrite Heq.
  - inversion Hall as [|? m1 ? l1 (_ & Hr & _) Hrest]; subst.
    vm_compute in Hr. discriminate.
Defined.

(** ** Every entry taken off the queue is reported *)

















(** ** The session *)

Lemma continue_loop_session (i : nat) (st : State) :
  isClientReady (continue_loop i st) = isClientReady st
  /\ connectionStatus (continue_loop i st) = connectionStatus st.
Proof.
  unfold continue_loop. destruct (run_loop st) as [st' ex] eqn:Hr.
  apply run_loop_spec in Hr as (_ & _ & _ & _ & _ & _ & Hrd & Hcs & _).
  now destruct ex.
Qed.

Lemma enter_catch_session (i : nat) (m : QueuedMessage) (error : Exn) (st : State) :
  isClientReady (enter_catch i m error st) = isClientReady st
  /\ connectionStatus (enter_catch i m error st) = connectionStatus st.
Proof.
  unfold enter_catch. destruct (catch_block m error); [|now split].
  apply (continue_loop_session i (emit [Outcome m failed] st)).
Qed.

Lemma processMessageQueue_session (st : State) :
  isClientReady (processMessageQueue st) = isClientReady st
  /\ connectionStatus (processMessageQueue st) = connectionStatus st.
Proof.
  unfold processMessageQueue. destruct (_ || _); [now split|].
  destruct (run_loop _) as [st' ex] eqn:Hr.
  apply run_loop_spec in Hr as (_ & _ & _ & _ & _ & _ & Hrd & Hcs & _).
  now destruct ex.
Qed.

Lemma fold_push_session (f : BulkItem -> bool) (items : list BulkItem) (st : State) :
  let st' := fold_left (fun st msg => if f msg then st else push_message msg st) items st in
  isClientReady st' = isClientReady st /\ connectionStatus st' = connectionStatus st.
Proof.
  apply (fold_push_invariant
           (fun s => isClientReady s = isClientReady st
                     /\ connectionStatus s = connectionStatus st)); [|now split].
  intros item s Hs. exact Hs.
Qed.

(** What one turn of the event loop does to the two session variables. *)
Lemma step_session (ev : Event) (st st' : State) :
  step ev st = Some st' ->
  isClientReady st' = default (isClientReady st) (sets_ready ev)
  /\ (connectionStatus st' = ready ->
      ev = ClientReady \/ (connectionStatus st = ready /\ sets_ready ev = None)).
Proof.
  destruct ev; cbn [step sets_ready default];
    try (intros [= <-]; cbn; split; [reflexivity|]; first [discriminate|auto]).
  - intros [= <-]. unfold post_send_bulk_messages.
    destruct (_ =? _)%nat; [auto|]. destruct (negb _); [auto|].
    destruct (processMessageQueue_session
                (fold_left
                   (fun st msg =>
                      if negb (truthy (item_number msg)) || negb (truthy (item_message msg))
                      then st else push_message msg st) messages st)) as [-> ->].
    destruct (fold_push_session
                (fun msg => negb (truthy (item_number msg))
                            || negb (truthy (item_message msg))) messages st) as [-> ->].
    auto.
  - intros [= <-]. unfold post_send_notifications.
    destruct (_ =? _)%nat; [auto|]. destruct (negb _); [auto|].
    destruct (processMessageQueue_session
                (fold_left (fun st msg => push_message msg st) messages st)) as [-> ->].
    destruct (fold_push_session (fun _ => false) messages st) as [-> ->]. auto.
  - intros [= <-]. rewrite cron_tick_processMessageQueue.
    destruct (processMessageQueue_session st) as [-> ->]. auto.
  - unfold resume_send.
    destruct (drains st !! i) as [[m fn|m wake]|]; [|discriminate..].
    destruct result as [|error].
    + destruct (notify m sent None); intros [= <-].
      * cbn. auto.
      * destruct (enter_catch_session i m e (emit [Outcome m sent] st)) as [-> ->].
        cbn. auto.
    + intros [= <-]. destruct (enter_catch_session i m error st) as [-> ->]. auto.
  - unfold resume_delay.
    destruct (drains st !! i) as [[m fn|m wake]|]; [discriminate| |discriminate].
    destruct (wake <=? now st)%Z; [|discriminate]. intros [= <-].
    destruct (continue_loop_session i st) as [-> ->]. auto.
  - destruct (0 <=? dt)%Z; [|discriminate]. intros [= <-]. cbn. auto.
Qed.

Lemma reachable_session (evs : list Event) (st : State) :
  exec evs initial_state = Some st ->
  connectionStatus st = ready -> isClientReady st = true.
Proof.
  apply (exec_invariant (fun st => connectionStatus st = ready -> isClientReady st = true)).
  - intros ev s s' _ IH Hstep Hs.
    destruct (step_session ev s s' Hstep) as [Hrd Hcs]. rewrite Hrd.
    destruct (Hcs Hs) as [->|[Hs0 ->]]; [reflexivity|]. cbn. now apply IH.
  - discriminate.
Qed.

(** X19.  In every state the server can reach, a connection status of
    [ready] means that the client is ready; so when a route refuses with
    503, the status its answer quotes is never [ready]. *)
Theorem status_ready_means_ready (evs : list Event) (st : State) :
  exec evs initial_state = Some st ->
  (connectionStatus st = ready -> isClientReady st = true)
  /\ (forall messages,
        response.code (fst (send_bulk_messages messages st)) = 503 ->
        connectionStatus st <> ready
        /\ response.text (fst (send_bulk_messages messages st))
           = "WhatsApp client is not ready. Current status: "
             ++ status_name (connectionStatus st)).
Proof.
  intros Hex. pose proof (reachable_session evs st Hex) as Hinv.
  split; [exact Hinv|]. intros messages. unfold send_bulk_messages.
  destruct (_ =? _)%nat; [discriminate|].
  destruct (isClientReady st) eqn:Hr; cbn [negb].
  - destruct (bulk_forEach 0 messages [] st). discriminate.
  - intros _. split; [|reflexivity]. intros Hs. specialize (Hinv Hs). congruence.
Qed.

Lemma status_ready_means_ready_witness :
  isClientReady (state_after scenario_events) = true
  /\ connectionStatus (state_after [ClientReady; ClientAuthFailure]) = auth_failed
  /\ isClientReady (state_after [ClientReady; ClientAuthFailure]) = true.
Proof.
  split; [|split; vm_compute; reflexivity].
  apply (status_ready_means_ready scenario_events); vm_compute; reflexivity.
Defined.

(** X20.  Whatever runs in a turn of the event loop, [isClientReady] is
    assigned by the [ready] and the [disconnected] callback of the client
    and by the reset route only: no route that enqueues, no tick of the
    scheduler and no step of the drain changes it, and neither does a
    failure to authenticate. *)
Theorem readiness_set_by_session_only (ev : Event) (st st' : State) :
  step ev st = Some st' ->
  isClientReady st' = default (isClientReady st) (sets_ready ev).
Proof. intros Hstep. now destruct (step_session ev st st' Hstep). Qed.

Lemma readiness_set_by_session_only_witness :
  isClientReady (state_after (scenario_events ++ [SendSettled 0 (Rejected send_error)]))
  = true.
Proof.
  assert (Hstep : step (SendSettled 0 (Rejected send_error)) (state_after scenario_events)
                  = Some (state_after
                            (scenario_events ++ [SendSettled 0 (Rejected send_error)])))
    by (vm_compute; reflexivity).
  rewrite (readiness_set_by_session_only _ _ _ Hstep). vm_compute; reflexivity.
Defined.

(** ** The scheduler *)

(** X21.  The callback of the scheduler (lines 553-558) does what a plain
    call of [processMessageQueue] does: its own test of the queue, the
    readiness and the flag is the guard of line 37 once more, so a tick
    never starts a drain that a route would not have started. *)
Theorem cron_guard_redundant (st : State) :
  cron_tick st = processMessageQueue st
  /\ (isProcessingQueue st = true \/ messageQueue st = [] \/ isClientReady st = false ->
      cron_tick st = st).
Proof.
  split; [apply cron_tick_processMessageQueue|].
  intros Hg. rewrite cron_tick_processMessageQueue. now apply processMessageQueue_guard.
Qed.

Lemma cron_guard_redundant_witness :
  cron_tick (state_after scenario_events) = state_after scenario_events.
Proof.
  apply (cron_guard_redundant (state_after scenario_events)).
  left. vm_compute; reflexivity.
Defined.

(** ** The duration line with one spelling *)

